(** * IPPO training loop of the JaxMARL walkthrough: a shallow embedding

    The notebook [JaxMARL_Walkthrough.ipynb] defines the batch adapter
    ([batchify], [unbatchify]) and [make_train], whose nested functions
    collect a rollout, estimate advantages ([_calculate_gae]) and run the
    clipped PPO update ([_update_epoch], [_update_minbatch], [_loss_fn]),
    with the learning rate of [linear_schedule]; [get_rollout] replays one
    episode with the trained parameters.

    Conventions of the embedding:
    - a Python exception is a value of [exn]; fallible code lives in the
      [result] monad;
    - an array is its shape and its entries in row-major order;
    - a dictionary keyed by agent names is a [gmap string _];
    - scalar arithmetic is exact (rationals, [Q]) where a claim needs
      numbers; rounding of machine floats is not modelled;
    - the environment, the network and the JAX engine are functions:
      that two runs on equal inputs agree is then a fact of the
      embedding, not of the code, and no theorem states it. *)

From Stdlib Require Import QArith Qminmax Qabs Lqa.
From stdpp Require Import gmap strings list fin_maps.

Set Default Proof Using "Type".
Local Open Scope nat_scope.

(** ** Exceptions and the result monad

    [ShapeMismatch] stands for what JAX raises on shapes that do not fit
    (a reshape to another size, arrays of different shapes to stack,
    nothing to stack). *)

Inductive exn : Type :=
  | KeyError (key : string)
  | ShapeMismatch
  | IndexError
  | ZeroDivisionError
  | AssertionError (msg : string).

Inductive result (A : Type) : Type :=
  | Ok (a : A)
  | Raise (e : exn).
Arguments Ok {A} a.
Arguments Raise {A} e.

#[export] Instance result_ret : MRet result := λ A a, Ok a.
#[export] Instance result_bind : MBind result := λ A B f m,
  match m with
  | Ok a => f a
  | Raise e => Raise e
  end.
#[export] Instance result_fmap : FMap result := λ A B f m,
  match m with
  | Ok a => Ok (f a)
  | Raise e => Raise e
  end.

(** ** Arrays *)

Record ndarray (A : Type) : Type := NDArray {
  shape : list nat;
  data : list A
}.
Arguments NDArray {A} shape data.
Arguments shape {A} _.
Arguments data {A} _.

(** Number of entries an array of a given shape holds. *)
Definition numel (s : list nat) : nat := foldr Nat.mul 1 s.

Definition wf_array {A} (x : ndarray A) : Prop :=
  length (data x) = numel (shape x).

(** One entry of the shape handed to [reshape]: a length, or [-1]. *)
Inductive dim : Type :=
  | Dim (n : nat)
  | Infer.

Definition known_numel (s : list dim) : nat :=
  foldr (λ d acc, match d with Dim n => n * acc | Infer => acc end) 1 s.

Definition count_infer (s : list dim) : nat :=
  foldr (λ d acc, match d with Dim _ => acc | Infer => S acc end) 0 s.

Definition resolve (fill : nat) (s : list dim) : list nat :=
  (λ d, match d with Dim n => n | Infer => fill end) <$> s.

(** [x.reshape(newshape)]: the entries stay in place, the shape changes.
    At most one entry may be [-1]; it is inferred from the size. *)
Definition reshape {A} (x : ndarray A) (newshape : list dim)
    : result (ndarray A) :=
  let size := numel (shape x) in
  let known := known_numel newshape in
  match count_infer newshape with
  | 0 =>
      if decide (known = size)
      then Ok (NDArray (resolve 0 newshape) (data x))
      else Raise ShapeMismatch
  | 1 =>
      if decide (known = 0) then Raise ZeroDivisionError
      else if decide (size `mod` known = 0)
      then Ok (NDArray (resolve (size `div` known) newshape) (data x))
      else Raise ShapeMismatch
  | _ => Raise ShapeMismatch
  end.

(** [jnp.stack(xs)]: a new leading axis; all arrays must share one shape,
    and there must be at least one. *)
Definition stack {A} (xs : list (ndarray A)) : result (ndarray A) :=
  match xs with
  | [] => Raise ShapeMismatch
  | x :: _ =>
      if decide (Forall (λ y, shape y = shape x) xs)
      then Ok (NDArray (length xs :: shape x) (concat (data <$> xs)))
      else Raise ShapeMismatch
  end.

(** The [i]-th block of [r] entries. *)
Definition block {A} (r i : nat) (l : list A) : list A :=
  take r (drop (i * r) l).

(** [x[i]] for a non-negative integer [i]: the [i]-th slice along the
    leading axis. JAX clamps an index past the end to the last slice. *)
Definition getitem {A} (x : ndarray A) (i : nat) : result (ndarray A) :=
  match shape x with
  | [] => Raise IndexError
  | 0 :: _ => Raise IndexError
  | S n :: s => Ok (NDArray s (block (numel s) (i `min` n) (data x)))
  end.

(** ** The batch adapter *)

Section batch_adapter.
Context {A : Type}.

Definition dict_get (x : gmap string (ndarray A)) (a : string)
    : result (ndarray A) :=
  match x !! a with
  | Some v => Ok v
  | None => Raise (KeyError a)
  end.

(** [{a: v for a, v in kvs}]: a later pair overrides an earlier one. *)
Definition dict_of (kvs : list (string * ndarray A))
    : gmap string (ndarray A) :=
  list_to_map (reverse kvs).

Definition batchify (x : gmap string (ndarray A))
    (agent_list : list string) (num_actors : nat) : result (ndarray A) :=
  xs ← mapM (dict_get x) agent_list;
  x ← stack xs;
  reshape x [Dim num_actors; Infer].

Definition unbatchify (x : ndarray A) (agent_list : list string)
    (num_envs num_actors : nat) : result (gmap string (ndarray A)) :=
  x ← reshape x [Dim num_actors; Dim num_envs; Infer];
  rows ← mapM (getitem x) (seq 0 (length agent_list));
  mret (dict_of (zip agent_list rows)).

End batch_adapter.

(** ** [jax.lax.scan]

    The scanned-over array is given as the list of its slices along the
    leading axis, and the stacked outputs as the list of per-step outputs.
    With [reverse=True] the slices are consumed last to first, and every
    output stays at the position of the slice it was computed from. *)

Fixpoint scan {C X Y} (f : C → X → C * Y) (init : C) (xs : list X)
    : C * list Y :=
  match xs with
  | [] => (init, [])
  | x :: xs =>
      let '(c, y) := f init x in
      let '(c', ys) := scan f c xs in
      (c', y :: ys)
  end.

Fixpoint scan_reverse {C X Y} (f : C → X → C * Y) (init : C) (xs : list X)
    : C * list Y :=
  match xs with
  | [] => (init, [])
  | x :: xs =>
      let '(c, ys) := scan_reverse f init xs in
      let '(c', y) := f c x in
      (c', y :: ys)
  end.

(** ** Array arithmetic

    The numerical engine is a collaborator: [S] are Python floats (the
    configuration's numbers), [V] arrays of floats, [B] arrays of booleans.
    Nothing is assumed of the operations here. *)

Class ArrayArith (S V B : Type) : Type := {
  (* Python floats: [a + b], [a - b], [a * b], [-a], [1.0], [0.5], [1e-8] *)
  fadd : S → S → S;
  fsub : S → S → S;
  fmul : S → S → S;
  fneg : S → S;
  fone : S;
  fhalf : S;
  ftiny : S;
  (* arrays: [jnp.zeros_like], the elementwise operators, [jnp.square],
     [jnp.maximum], [jnp.minimum], a float times an array, an array plus
     a float, [jnp.clip], [.mean()], and [1 - done] *)
  zeros_like : V → V;
  arr_add : V → V → V;
  arr_sub : V → V → V;
  arr_mul : V → V → V;
  arr_div : V → V → V;
  arr_neg : V → V;
  arr_square : V → V;
  arr_maximum : V → V → V;
  arr_minimum : V → V → V;
  arr_smul : S → V → V;
  arr_adds : V → S → V;
  arr_clip : V → S → S → V;
  arr_mean : V → V;
  one_minus : B → V
}.

Declare Scope arr_scope.
Delimit Scope arr_scope with arr.
Notation "x + y" := (arr_add x y) : arr_scope.
Notation "x - y" := (arr_sub x y) : arr_scope.
Notation "x * y" := (arr_mul x y) : arr_scope.
Notation "x / y" := (arr_div x y) : arr_scope.
Notation "- x" := (arr_neg x) : arr_scope.
Notation "s .* x" := (arr_smul s x)
  (at level 40, left associativity) : arr_scope.
Notation "x .+ s" := (arr_adds x s)
  (at level 50, left associativity) : arr_scope.

(** ** Transitions *)

Record Transition (B Act V O I : Type) : Type := mkTransition {
  done : B;
  action : Act;
  value : V;
  reward : V;
  log_prob : V;
  obs : O;
  info : I
}.
Arguments mkTransition {B Act V O I}.
Arguments done {B Act V O I} _.
Arguments action {B Act V O I} _.
Arguments value {B Act V O I} _.
Arguments reward {B Act V O I} _.
Arguments log_prob {B Act V O I} _.
Arguments obs {B Act V O I} _.
Arguments info {B Act V O I} _.

(** ** The advantage estimator *)

Section gae.
Context {S V B : Type} `{!ArrayArith S V B} {Act O I : Type}.
Variables GAMMA GAE_LAMBDA : S.

Definition _get_advantages (gae_and_next_value : V * V)
    (transition : Transition B Act V O I) : (V * V) * V :=
  let '(gae, next_value) := gae_and_next_value in
  let '(done, value, reward) :=
    (done transition, value transition, reward transition) in
  let delta :=
    (reward + GAMMA .* next_value * one_minus done - value)%arr in
  let gae :=
    (delta + fmul GAMMA GAE_LAMBDA .* one_minus done * gae)%arr in
  ((gae, value), gae).

Definition _calculate_gae (traj_batch : list (Transition B Act V O I))
    (last_val : V) : list V * list V :=
  let '(_, advantages) :=
    scan_reverse _get_advantages (zeros_like last_val, last_val)
      traj_batch in
  (advantages, zip_with arr_add advantages (value <$> traj_batch)).

(** The recursion as the specification states it: the
    temporal-difference residual of a step, and the advantage of a step
    from the value and the advantage that follow it. *)
Definition delta_of (transition : Transition B Act V O I)
    (next_value : V) : V :=
  arr_sub
    (arr_add (reward transition)
       (arr_mul (arr_smul GAMMA next_value) (one_minus (done transition))))
    (value transition).

Definition advantage_of (transition : Transition B Act V O I)
    (next_value next_advantage : V) : V :=
  arr_add (delta_of transition next_value)
    (arr_mul
       (arr_smul (fmul GAMMA GAE_LAMBDA) (one_minus (done transition)))
       next_advantage).

End gae.

(** ** Exact arithmetic on scalars

    [jnp.clip(x, lo, hi)] is [minimum(maximum(x, lo), hi)]. *)

Definition Qclip (x lo hi : Q) : Q := Qmin (Qmax x lo) hi.

#[export] Instance Q_arith : ArrayArith Q Q bool := {|
  fadd := Qplus; fsub := Qminus; fmul := Qmult; fneg := Qopp;
  fone := 1%Q; fhalf := (1 # 2)%Q; ftiny := (1 # 100000000)%Q;
  zeros_like := λ _, 0%Q;
  arr_add := Qplus; arr_sub := Qminus; arr_mul := Qmult; arr_div := Qdiv;
  arr_neg := Qopp;
  arr_square := λ x, (x * x)%Q;
  arr_maximum := Qmax; arr_minimum := Qmin;
  arr_smul := Qmult;
  arr_adds := Qplus;
  arr_clip := Qclip;
  arr_mean := λ x, x;
  one_minus := λ d : bool, (1 - (if d then 1 else 0))%Q
|}.

(** ** The loss of one minibatch: value block and actor block

    [_loss_fn] computes the value loss from the re-evaluated values, the
    values stored at collection time and the targets, and the actor loss
    from the probability ratio and the normalised advantages. *)

Section loss_blocks.
Context {S V B : Type} `{!ArrayArith S V B}.
Variable CLIP_EPS : S.

Definition value_pred_clipped_of (value old_value : V) : V :=
  (old_value + arr_clip (value - old_value) (fneg CLIP_EPS) CLIP_EPS)%arr.

Definition value_loss_of (value old_value targets : V) : V :=
  let value_pred_clipped := value_pred_clipped_of value old_value in
  let value_losses := arr_square (value - targets)%arr in
  let value_losses_clipped :=
    arr_square (value_pred_clipped - targets)%arr in
  (fhalf .* arr_mean (arr_maximum value_losses value_losses_clipped))%arr.

(** [-jnp.minimum(loss_actor1, loss_actor2)], before the mean. *)
Definition loss_actor_terms (ratio gae : V) : V :=
  let loss_actor1 := (ratio * gae)%arr in
  let loss_actor2 :=
    (arr_clip ratio (fsub fone CLIP_EPS) (fadd fone CLIP_EPS) * gae)%arr in
  (- arr_minimum loss_actor1 loss_actor2)%arr.

End loss_blocks.

(** ** Exact arithmetic on one-dimensional arrays

    A minibatch field of shape [(n,)] is the list of its [n] entries and a
    0-d array a list of one entry. Binary operations broadcast a
    one-entry operand, as NumPy does. The mean of no entries is [nan] in
    JAX and [0] here. *)

Definition broadcast2 (f : Q → Q → Q) (x y : list Q) : list Q :=
  match x, y with
  | [a], _ => f a <$> y
  | _, [b] => (λ a, f a b) <$> x
  | _, _ => zip_with f x y
  end.

Definition Qsum (l : list Q) : Q := foldr Qplus 0%Q l.

Definition Qmean (l : list Q) : Q :=
  (Qsum l / inject_Z (Z.of_nat (length l)))%Q.

#[export] Instance Qlist_arith : ArrayArith Q (list Q) (list bool) := {|
  fadd := Qplus; fsub := Qminus; fmul := Qmult; fneg := Qopp;
  fone := 1%Q; fhalf := (1 # 2)%Q; ftiny := (1 # 100000000)%Q;
  zeros_like := λ x, (λ _, 0%Q) <$> x;
  arr_add := broadcast2 Qplus;
  arr_sub := broadcast2 Qminus;
  arr_mul := broadcast2 Qmult;
  arr_div := broadcast2 Qdiv;
  arr_neg := fmap Qopp;
  arr_square := fmap (λ x, (x * x)%Q);
  arr_maximum := broadcast2 Qmax;
  arr_minimum := broadcast2 Qmin;
  arr_smul := λ s, fmap (Qmult s);
  arr_adds := λ x s, (λ a, (a + s)%Q) <$> x;
  arr_clip := λ x lo hi, (λ a, Qclip a lo hi) <$> x;
  arr_mean := λ x, [Qmean x];
  one_minus := fmap (λ d : bool, (1 - (if d then 1 else 0))%Q)
|}.

(** *** The value loss as the specification words it *)




(** ** More array plumbing *)

(** The value JAX puts where [jnp.take] is given an index out of range
    ([nan] for floats, and so on per dtype). *)
Class FillValue (X : Type) : Type := fill_value : X.

(** [x.flatten()] *)
Definition flatten {X} (x : ndarray X) : ndarray X :=
  NDArray [numel (shape x)] (data x).

(** [x.squeeze()]: every axis of length one is dropped. *)
Definition squeeze {X} (x : ndarray X) : ndarray X :=
  NDArray (filter (λ n, n ≠ 1) (shape x)) (data x).

(** The [i]-th slice along the leading axis, for [i] in range: what
    [jax.lax.scan] hands to its body. *)
Definition slice_at {X} (i : nat) (x : ndarray X) : ndarray X :=
  NDArray (tail (shape x)) (block (numel (tail (shape x))) i (data x)).

Definition leading {X} (x : ndarray X) : nat := hd 0 (shape x).

(** [jnp.take(x, indices, axis=0)] *)
Definition jnp_take {X} `{!FillValue X} (x : ndarray X) (indices : list nat)
    : result (ndarray X) :=
  match shape x with
  | [] => Raise IndexError
  | n :: s =>
      Ok (NDArray (length indices :: s)
            (concat ((λ i, if decide (i < n)
                           then block (numel s) i (data x)
                           else replicate (numel s) fill_value)
                     <$> indices)))
  end.

(** The three leaf operations of an update epoch where they succeed:
    the time and actor axes merged into one of length [batch_size], the
    entries picked by in-range indices, and the leading axis split into
    [n] chunks. *)
Definition flat_leaf (batch_size : nat) {X} (x : ndarray X) : ndarray X :=
  NDArray (batch_size :: drop 2 (shape x)) (data x).

Definition take_leaf (indices : list nat) {X} (x : ndarray X) : ndarray X :=
  NDArray (length indices :: tail (shape x))
    (concat ((λ i, block (numel (tail (shape x))) i (data x)) <$> indices)).

Definition split_leaf (n : nat) {X} (x : ndarray X) : ndarray X :=
  NDArray (n :: leading x `div` n :: tail (shape x)) (data x).

(** Leaves as an update epoch expects them: a time axis, an actor axis,
    and trailing axes that hold at least one entry; and leaves with one
    leading axis of a given length. *)
Definition leaf_steps_actors (H A : nat) X (x : ndarray X) : Prop :=
  ∃ rest, shape x = H :: A :: rest ∧ wf_array x ∧ numel rest ≠ 0.

Definition leaf_rows (n : nat) X (x : ndarray X) : Prop :=
  ∃ rest, shape x = n :: rest ∧ wf_array x ∧ numel rest ≠ 0.

(** [jax.tree_map] over a dictionary of arrays. *)
Definition dict_mapM {X Y} (f : ndarray X → result (ndarray Y))
    (m : gmap string (ndarray X)) : result (gmap string (ndarray Y)) :=
  kvs ← mapM (λ kv : string * ndarray X, v ← f kv.2; mret (kv.1, v))
             (map_to_list m);
  mret (list_to_map kvs).

(** Stacking the per-step dictionaries a scan body returned. *)
Definition stack_dicts {X} (ds : list (gmap string (ndarray X)))
    : result (gmap string (ndarray X)) :=
  match ds with
  | [] => Raise ShapeMismatch
  | d :: _ =>
      if decide (Forall (λ d', dom d' = dom d) ds)
      then
        kvs ← mapM (λ k, vs ← mapM (λ d', dict_get d' k) ds;
                         v ← stack vs; mret (k, v))
                   (elements (dom d));
        mret (list_to_map kvs)
      else Raise ShapeMismatch
  end.

(** [jax.lax.scan(f, init, None, length)] with a body that may raise.
    JAX traces the body once on the initial carry before any step runs,
    whatever [length] is, and an exception the body raises while it is
    traced (a failed assertion, shapes that do not fit, a missing key)
    leaves the scan: also when [length] is 0. [scan_steps] runs the
    steps; [scan_n] traces first, which here is running the body on the
    initial carry and dropping what it returns. *)
Fixpoint scan_steps {C Y} (f : C → result (C * Y)) (init : C) (length : nat)
    : result (C * list Y) :=
  match length with
  | 0 => mret (init, [])
  | S n =>
      '(c, y) ← f init;
      '(c', ys) ← scan_steps f c n;
      mret (c', y :: ys)
  end.

Definition scan_n {C Y} (f : C → result (C * Y)) (init : C) (length : nat)
    : result (C * list Y) :=
  _ ← f init;
  scan_steps f init length.

(** ** Configuration *)

Record Config (S : Type) : Type := mkConfig {
  LR : S;
  NUM_ENVS : nat;
  NUM_STEPS : nat;
  TOTAL_TIMESTEPS : nat;
  UPDATE_EPOCHS : nat;
  NUM_MINIBATCHES : nat;
  GAMMA : S;
  GAE_LAMBDA : S;
  CLIP_EPS : S;
  ENT_COEF : S;
  VF_COEF : S;
  MAX_GRAD_NORM : S;
  ANNEAL_LR : bool;
  (* written by [make_train] *)
  NUM_ACTORS : nat;
  NUM_UPDATES : nat;
  MINIBATCH_SIZE : nat
}.
Arguments mkConfig {S}.
Arguments LR {S} _.
Arguments NUM_ENVS {S} _.
Arguments NUM_STEPS {S} _.
Arguments TOTAL_TIMESTEPS {S} _.
Arguments UPDATE_EPOCHS {S} _.
Arguments NUM_MINIBATCHES {S} _.
Arguments GAMMA {S} _.
Arguments GAE_LAMBDA {S} _.
Arguments CLIP_EPS {S} _.
Arguments ENT_COEF {S} _.
Arguments VF_COEF {S} _.
Arguments MAX_GRAD_NORM {S} _.
Arguments ANNEAL_LR {S} _.
Arguments NUM_ACTORS {S} _.
Arguments NUM_UPDATES {S} _.
Arguments MINIBATCH_SIZE {S} _.

(** Python's [a // b] on non-negative integers. *)
Definition floordiv (a b : nat) : result nat :=
  if decide (b = 0) then Raise ZeroDivisionError else Ok (a `div` b).

(** The three entries [make_train] writes into [config] before it
    returns [train]. *)
Definition make_train_config {S} (num_agents : nat) (config : Config S)
    : result (Config S) :=
  let num_actors := num_agents * NUM_ENVS config in
  q ← floordiv (TOTAL_TIMESTEPS config) (NUM_STEPS config);
  num_updates ← floordiv q (NUM_ENVS config);
  minibatch_size ←
    floordiv (num_actors * NUM_STEPS config) (NUM_MINIBATCHES config);
  mret (mkConfig (LR config) (NUM_ENVS config) (NUM_STEPS config)
          (TOTAL_TIMESTEPS config) (UPDATE_EPOCHS config)
          (NUM_MINIBATCHES config) (GAMMA config) (GAE_LAMBDA config)
          (CLIP_EPS config) (ENT_COEF config) (VF_COEF config)
          (MAX_GRAD_NORM config) (ANNEAL_LR config)
          num_actors num_updates minibatch_size).

(** ** Collaborators

    The environment, the actor-critic network with the distribution it
    returns, and the JAX/optax engine (key splitting, permutations, the
    optimiser, automatic differentiation) are used through their
    interfaces only. The environment functions are the [jax.vmap]ped ones:
    they take one key per parallel instance. *)

Class ArrayLib (V : Type) : Type := {
  jnp_zeros : list nat → V;
  jnp_exp : V → V;
  jnp_std : V → V
}.

Section training.
Context {S F Ac Inf Key EnvState Params Pi TrainState Tx Grads : Type}.
Context `{!ArrayArith S (ndarray F) (ndarray bool)}.
Context `{!ArrayLib (ndarray F)}.
Context `{!FillValue F, !FillValue Ac, !FillValue Inf, !FillValue bool}.

Abbreviation V := (ndarray F).
Abbreviation Traj :=
  (Transition (ndarray bool) (ndarray Ac) V V (gmap string (ndarray Inf))).
Abbreviation Loss := (V * (V * V * V))%type.

Record Environment : Type := {
  env_agents : list string;
  env_observation_shape : list nat;
  vmap_env_reset : list Key → gmap string V * EnvState;
  vmap_env_step :
    list Key → EnvState → gmap string (ndarray Ac) →
    gmap string V * EnvState * gmap string V
    * gmap string (ndarray bool) * gmap string (ndarray Inf)
}.

Record Network : Type := {
  network_init : Key → V → Params;
  network_apply : Params → V → Pi * V;
  pi_sample : Pi → Key → ndarray Ac;
  pi_log_prob : Pi → ndarray Ac → V;
  pi_entropy : Pi → V
}.

Record Engine : Type := {
  random_split : Key → Key * Key;
  random_split_n : Key → nat → list Key;
  random_permutation : Key → nat → list nat;
  optax_chain : Config S → Tx;
  TrainState_create : Params → Tx → TrainState;
  params : TrainState → Params;
  apply_gradients : TrainState → Grads → TrainState;
  value_and_grad : (Params → Loss) → Params → Loss * Grads
}.

Variable env : Environment.
Variable network : Network.
Variable jax : Engine.
Variable config : Config S.

Definition num_agents : nat := length (env_agents env).

(** *** Trees of arrays *)

Definition leaf_fn : Type :=
  ∀ X, FillValue X → ndarray X → result (ndarray X).

Definition tree_map_transition (f : leaf_fn) (t : Traj) : result Traj :=
  d ← f _ _ (done t);
  a ← f _ _ (action t);
  v ← f _ _ (value t);
  r ← f _ _ (reward t);
  l ← f _ _ (log_prob t);
  o ← f _ _ (obs t);
  i ← dict_mapM (f _ _) (info t);
  mret (mkTransition d a v r l o i).

Definition tree_map_batch (f : leaf_fn) (batch : Traj * V * V)
    : result (Traj * V * V) :=
  let '(traj_batch, advantages, targets) := batch in
  t ← tree_map_transition f traj_batch;
  a ← f _ _ advantages;
  g ← f _ _ targets;
  mret (t, a, g).

(** A function on leaves that cannot raise, applied to every leaf, and a
    property of every leaf: what the properties of [tree_map_batch] are
    stated with. *)
Definition leaf_pure : Type := ∀ X, FillValue X → ndarray X → ndarray X.

Definition leaf_pred : Type := ∀ X, ndarray X → Prop.

Definition tree_fmap_transition (g : leaf_pure) (t : Traj) : Traj :=
  mkTransition (g _ _ (done t)) (g _ _ (action t)) (g _ _ (value t))
    (g _ _ (reward t)) (g _ _ (log_prob t)) (g _ _ (obs t))
    (g _ _ <$> info t).

Definition tree_fmap_batch (g : leaf_pure) (batch : Traj * V * V)
    : Traj * V * V :=
  let '(traj_batch, advantages, targets) := batch in
  (tree_fmap_transition g traj_batch, g _ _ advantages, g _ _ targets).

Definition transition_Forall (P : leaf_pred) (t : Traj) : Prop :=
  P _ (done t) ∧ P _ (action t) ∧ P _ (value t) ∧ P _ (reward t)
  ∧ P _ (log_prob t) ∧ P _ (obs t)
  ∧ map_Forall (λ _ v, P _ v) (info t).

Definition batch_Forall (P : leaf_pred) (batch : Traj * V * V) : Prop :=
  let '(traj_batch, advantages, targets) := batch in
  transition_Forall P traj_batch ∧ P _ advantages ∧ P _ targets.

Definition transition_at (i : nat) (t : Traj) : Traj :=
  mkTransition (slice_at i (done t)) (slice_at i (action t))
    (slice_at i (value t)) (slice_at i (reward t))
    (slice_at i (log_prob t)) (slice_at i (obs t))
    (slice_at i <$> info t).

(** The slices a scan over a stacked trajectory walks through. *)
Definition transition_slices (t : Traj) : list Traj :=
  (λ i, transition_at i t) <$> seq 0 (leading (done t)).

Definition batch_at (i : nat) (batch : Traj * V * V) : Traj * V * V :=
  let '(traj_batch, advantages, targets) := batch in
  (transition_at i traj_batch, slice_at i advantages, slice_at i targets).

Definition batch_slices (batch : Traj * V * V) : list (Traj * V * V) :=
  (λ i, batch_at i batch) <$> seq 0 (leading batch.1.2).

(** The stacked outputs of a scan whose body returns transitions. *)
Definition stack_transitions (ts : list Traj) : result Traj :=
  d ← stack (done <$> ts);
  a ← stack (action <$> ts);
  v ← stack (value <$> ts);
  r ← stack (reward <$> ts);
  l ← stack (log_prob <$> ts);
  o ← stack (obs <$> ts);
  i ← stack_dicts (info <$> ts);
  mret (mkTransition d a v r l o i).

(** The minibatches of an epoch where every leaf operation succeeds:
    flattened to the batch size, shuffled, split. *)
Definition minibatches_of (permutation : list nat) (batch : Traj * V * V)
    : Traj * V * V :=
  let batch_size := MINIBATCH_SIZE config * NUM_MINIBATCHES config in
  tree_fmap_batch (λ X _, split_leaf (NUM_MINIBATCHES config))
    (tree_fmap_batch (λ X _, take_leaf permutation)
       (tree_fmap_batch (λ X _, flat_leaf batch_size) batch)).

(** *** Collecting one step of every parallel environment *)

Definition _env_step
    (runner_state : TrainState * EnvState * gmap string V * Key)
    : result (TrainState * EnvState * gmap string V * Key * Traj) :=
  let '(train_state, env_state, last_obs, rng) := runner_state in
  (* SELECT ACTION *)
  let '(rng, _rng) := random_split jax rng in
  obs_batch ← batchify last_obs (env_agents env) (NUM_ACTORS config);
  let '(pi, value) :=
    network_apply network (params jax train_state) obs_batch in
  let action := pi_sample network pi _rng in
  let log_prob := pi_log_prob network pi action in
  env_act ←
    unbatchify action (env_agents env) (NUM_ENVS config) num_agents;
  let env_act := flatten <$> env_act in
  (* STEP ENV *)
  let '(rng, _rng) := random_split jax rng in
  let rng_step := random_split_n jax _rng (NUM_ENVS config) in
  let '(obsv, env_state, reward, done, info) :=
    vmap_env_step env rng_step env_state env_act in
  info ← dict_mapM (λ x, reshape x [Dim (NUM_ACTORS config)]) info;
  done_batch ← batchify done (env_agents env) (NUM_ACTORS config);
  reward_batch ← batchify reward (env_agents env) (NUM_ACTORS config);
  let transition :=
    mkTransition (squeeze done_batch) action value
      (squeeze reward_batch) log_prob obs_batch info in
  let runner_state := (train_state, env_state, obsv, rng) in
  mret (runner_state, transition).

(** *** The loss and one gradient step *)

Definition _loss_fn (params : Params) (traj_batch : Traj)
    (gae targets : V) : Loss :=
  (* the fields [traj_batch.value] and [traj_batch.log_prob], read
     before the local names [value] and [log_prob] hide the projections *)
  let traj_batch_value := value traj_batch in
  let traj_batch_log_prob := log_prob traj_batch in
  (* RERUN NETWORK *)
  let '(pi, value) := network_apply network params (obs traj_batch) in
  let log_prob := pi_log_prob network pi (action traj_batch) in
  (* CALCULATE VALUE LOSS *)
  let value_loss :=
    value_loss_of (CLIP_EPS config) value traj_batch_value targets in
  (* CALCULATE ACTOR LOSS *)
  let ratio := jnp_exp (log_prob - traj_batch_log_prob)%arr in
  let gae := ((gae - arr_mean gae) / (jnp_std gae .+ ftiny))%arr in
  let loss_actor :=
    arr_mean (loss_actor_terms (CLIP_EPS config) ratio gae) in
  let entropy := arr_mean (pi_entropy network pi) in
  let total_loss :=
    (loss_actor + VF_COEF config .* value_loss
     - ENT_COEF config .* entropy)%arr in
  (total_loss, (value_loss, loss_actor, entropy)).

Definition _update_minbatch (train_state : TrainState)
    (batch_info : Traj * V * V) : TrainState * Loss :=
  let '(traj_batch, advantages, targets) := batch_info in
  let grad_fn := value_and_grad jax in
  let '(total_loss, grads) :=
    grad_fn (λ params, _loss_fn params traj_batch advantages targets)
      (params jax train_state) in
  let train_state := apply_gradients jax train_state grads in
  (train_state, total_loss).

(** *** One epoch over the collected batch *)

Definition _update_epoch (update_state : TrainState * Traj * V * V * Key)
    : result (TrainState * Traj * V * V * Key * list Loss) :=
  let '(train_state, traj_batch, advantages, targets, rng) :=
    update_state in
  let '(rng, _rng) := random_split jax rng in
  let batch_size := MINIBATCH_SIZE config * NUM_MINIBATCHES config in
  if decide (batch_size = NUM_STEPS config * NUM_ACTORS config) then
    let permutation := random_permutation jax _rng batch_size in
    let batch := (traj_batch, advantages, targets) in
    batch ←
      tree_map_batch
        (λ X _ x, reshape x (Dim batch_size :: (Dim <$> drop 2 (shape x))))
        batch;
    shuffled_batch ←
      tree_map_batch (λ X _ x, jnp_take x permutation) batch;
    minibatches ←
      tree_map_batch
        (λ X _ x,
           reshape x ([Dim (NUM_MINIBATCHES config); Infer]
                      ++ (Dim <$> drop 1 (shape x))))
        shuffled_batch;
    let '(train_state, total_loss) :=
      scan _update_minbatch train_state (batch_slices minibatches) in
    let update_state :=
      (train_state, traj_batch, advantages, targets, rng) in
    mret (update_state, total_loss)
  else
    Raise (AssertionError
      "batch size must be equal to number of steps * number of actors").

(** *** One update: collect, estimate, run the epochs

    [_calculate_gae] walks the slices of the stacked trajectory; the
    advantages and the targets it returns per step are stacked again.
    The body hands back the trajectory it collected; [_update_step]
    keeps its [info] as the metric. *)

Definition _update_step_traj
    (runner_state : TrainState * EnvState * gmap string V * Key)
    : result (TrainState * EnvState * gmap string V * Key * Traj) :=
  (* COLLECT TRAJECTORIES *)
  '(runner_state, transitions) ←
    scan_n _env_step runner_state (NUM_STEPS config);
  traj_batch ← stack_transitions transitions;
  (* CALCULATE ADVANTAGE *)
  let '(train_state, env_state, last_obs, rng) := runner_state in
  last_obs_batch ← batchify last_obs (env_agents env) (NUM_ACTORS config);
  let '(_, last_val) :=
    network_apply network (params jax train_state) last_obs_batch in
  let '(advantages, targets) :=
    _calculate_gae (GAMMA config) (GAE_LAMBDA config)
      (transition_slices traj_batch) last_val in
  advantages ← stack advantages;
  targets ← stack targets;
  (* UPDATE NETWORK *)
  let update_state := (train_state, traj_batch, advantages, targets, rng) in
  '(update_state, loss_info) ←
    scan_n _update_epoch update_state (UPDATE_EPOCHS config);
  let '(train_state, _, _, _, rng) := update_state in
  let runner_state := (train_state, env_state, last_obs, rng) in
  mret (runner_state, traj_batch).

Definition _update_step
    (runner_state : TrainState * EnvState * gmap string V * Key)
    : result (TrainState * EnvState * gmap string V * Key
              * gmap string (ndarray Inf)) :=
  '(runner_state, traj_batch) ← _update_step_traj runner_state;
  let metric := info traj_batch in
  mret (runner_state, metric).

(** *** The training function *)

Definition init_runner_state (rng : Key)
    : TrainState * EnvState * gmap string V * Key :=
  (* INIT NETWORK *)
  let '(rng, _rng) := random_split jax rng in
  let init_x := jnp_zeros (env_observation_shape env) in
  let init_x := flatten init_x in
  let network_params := network_init network _rng init_x in
  let tx := optax_chain jax config in
  let train_state := TrainState_create jax network_params tx in
  (* INIT ENV *)
  let '(rng, _rng) := random_split jax rng in
  let reset_rng := random_split_n jax _rng (NUM_ENVS config) in
  let '(obsv, env_state) := vmap_env_reset env reset_rng in
  let '(rng, _rng) := random_split jax rng in
  (train_state, env_state, obsv, _rng).

Definition train (rng : Key)
    : result (TrainState * EnvState * gmap string V * Key
              * list (gmap string (ndarray Inf))) :=
  let runner_state := init_runner_state rng in
  '(runner_state, metric) ←
    scan_n _update_step runner_state (NUM_UPDATES config);
  mret (runner_state, metric).

End training.

(** ** The learning-rate schedule

    [linear_schedule] of [make_train], in exact arithmetic: [count] is the
    optimiser's step counter, [//] the floor division of non-negative
    integers and [/] the division of numbers. What JAX returns for a zero
    divisor has no rational value and is not modelled: the properties
    below are stated for positive divisors. *)

Definition linear_schedule (config : Config Q) (count : nat) : Q :=
  let frac :=
    (1 - inject_Z (Z.of_nat
                     (count `div` (NUM_MINIBATCHES config
                                   * UPDATE_EPOCHS config)))
         / inject_Z (Z.of_nat (NUM_UPDATES config)))%Q in
  (LR config * frac)%Q.

(** ** Rolling out one episode

    [get_rollout] steps a single environment (not a vectorised one) with
    the trained parameters until the environment reports the end of the
    episode, and returns the states it went through. The [while] loop runs
    on fuel: [None] means the fuel ran out before the episode ended. *)

(** [bool(x)] of an array: defined for an array of one entry. *)
Definition array_truth (x : ndarray bool) : result bool :=
  match data x with
  | [b] => Ok b
  | _ => Raise ShapeMismatch
  end.

Section rollout.
Context {S F Ac Inf Key EnvState Params Pi TrainState Tx Grads : Type}.
Context `{!ArrayLib (ndarray F)}.

Abbreviation V := (ndarray F).

Record Env : Type := {
  env_obs_shape : list nat;
  env_reset : Key → gmap string V * EnvState;
  env_step :
    Key → EnvState → gmap string (ndarray Ac) →
    gmap string V * EnvState * gmap string V
    * gmap string (ndarray bool) * gmap string (ndarray Inf)
}.

Variable PRNGKey : nat → Key.
Variable env : Env.
Variable network :
  Network (F:=F) (Ac:=Ac) (Key:=Key) (Params:=Params) (Pi:=Pi).
Variable jax :
  Engine (S:=S) (F:=F) (Key:=Key) (Params:=Params) (TrainState:=TrainState)
    (Tx:=Tx) (Grads:=Grads).

(** One pass through the body of the loop: the carried key, observations
    and state, and whether the episode has ended. *)
Definition rollout_iteration (network_params : Params)
    (carry : Key * gmap string V * EnvState)
    : result (Key * gmap string V * EnvState * bool) :=
  let '(key, obs, state) := carry in
  match random_split_n jax key 4 with
  | [key; key_a0; key_a1; key_s] =>
      let obs := flatten <$> obs in
      obs_0 ← dict_get obs "agent_0";
      let '(pi_0, _) := network_apply network network_params obs_0 in
      obs_1 ← dict_get obs "agent_1";
      let '(pi_1, _) := network_apply network network_params obs_1 in
      let actions :=
        dict_of [("agent_0", pi_sample network pi_0 key_a0);
                 ("agent_1", pi_sample network pi_1 key_a1)] in
      (* STEP ENV *)
      let '(obs, state, reward, done, info) :=
        env_step env key_s state actions in
      done ← dict_get done "__all__";
      done ← array_truth done;
      mret (key, obs, state, done)
  | _ => Raise ShapeMismatch
  end.

Fixpoint rollout_loop (fuel : nat) (network_params : Params)
    (carry : Key * gmap string V * EnvState) (state_seq : list EnvState)
    : option (result (list EnvState)) :=
  match fuel with
  | 0 => None
  | Datatypes.S fuel =>
      match rollout_iteration network_params carry with
      | Raise e => Some (Raise e)
      | Ok (key, obs, state, done) =>
          let state_seq := state_seq ++ [state] in
          if done then Some (Ok state_seq)
          else rollout_loop fuel network_params (key, obs, state) state_seq
      end
  end.

Definition get_rollout (fuel : nat) (train_state : TrainState)
    : option (result (list EnvState)) :=
  let key := PRNGKey 0 in
  match random_split_n jax key 3 with
  | [key; key_r; key_a] =>
      let init_x := jnp_zeros (env_obs_shape env) in
      let init_x := flatten init_x in
      let _ := network_init network key_a init_x in
      let network_params := params jax train_state in
      let '(obs, state) := env_reset env key_r in
      let state_seq := [state] in
      rollout_loop fuel network_params (key, obs, state) state_seq
  | _ => Some (Raise ShapeMismatch)
  end.

(** The states of an episode from a carry on: each comes from one pass
    through the loop body, and the pass that yields the last one is the
    first to report the end. *)
Inductive episode_from (network_params : Params)
    : Key * gmap string V * EnvState → list EnvState → Prop :=
  | episode_end carry key obs state :
      rollout_iteration network_params carry = Ok (key, obs, state, true) →
      episode_from network_params carry [state]
  | episode_step carry key obs state states :
      rollout_iteration network_params carry = Ok (key, obs, state, false) →
      episode_from network_params (key, obs, state) states →
      episode_from network_params carry (state :: states).

End rollout.

(** ** Example data *)

(** A [done] dictionary of two parallel environments: one agent and the
    sentinel key. *)
Definition done_dict : gmap string (ndarray bool) :=
  <["agent_0" := NDArray [2] [false; true]]>
    (<["__all__" := NDArray [2] [false; true]]> ∅).

(** A [reward] dictionary of two parallel environments: one number per
    environment, so values of shape (2,). *)
Definition reward_dict : gmap string (ndarray Q) :=
  <["agent_0" := NDArray [2] [1%Q; 0%Q]]> ∅.

(** An observation dictionary of two agents in two environments, three
    features each. *)
Definition obs_dict : gmap string (ndarray nat) :=
  <["agent_0" := NDArray [2; 3] [1; 2; 3; 4; 5; 6]]>
    (<["agent_1" := NDArray [2; 3] [7; 8; 9; 10; 11; 12]]> ∅).

(** The four-step scenario of one actor: rewards [1, 0, 0, 1], values
    [0.5, 0.5, 0.5, 0.5], dones [0, 0, 0, 1]. *)
Definition scenario_step (d : bool) (v r : Q)
    : Transition bool unit Q unit unit :=
  mkTransition d () v r 0%Q () ().

Definition scenario : list (Transition bool unit Q unit unit) :=
  [scenario_step false (1 # 2) 1; scenario_step false (1 # 2) 0;
   scenario_step false (1 # 2) 0; scenario_step true (1 # 2) 1]%Q.

(** ** A small world to run the training function in

    Exact arithmetic on arrays of rationals, and collaborators simple
    enough to evaluate: two agents in two parallel environments, one
    observed number per agent, a one-parameter network. The exponential
    and the standard deviation have no rational values; their stand-ins
    here only serve to run the examples. *)

Definition lift1 (f : list Q → list Q) (x : ndarray Q) : ndarray Q :=
  NDArray (shape x) (f (data x)).

Definition lift2 (f : Q → Q → Q) (x y : ndarray Q) : ndarray Q :=
  NDArray (if decide (length (data x) = 1) then shape y else shape x)
    (broadcast2 f (data x) (data y)).

#[export] Instance Qarray_arith : ArrayArith Q (ndarray Q) (ndarray bool) := {|
  fadd := Qplus; fsub := Qminus; fmul := Qmult; fneg := Qopp;
  fone := 1%Q; fhalf := (1 # 2)%Q; ftiny := (1 # 100000000)%Q;
  zeros_like := lift1 (fmap (λ _, 0%Q));
  arr_add := lift2 Qplus;
  arr_sub := lift2 Qminus;
  arr_mul := lift2 Qmult;
  arr_div := lift2 Qdiv;
  arr_neg := lift1 (fmap Qopp);
  arr_square := lift1 (fmap (λ x, (x * x)%Q));
  arr_maximum := lift2 Qmax;
  arr_minimum := lift2 Qmin;
  arr_smul := λ s, lift1 (fmap (Qmult s));
  arr_adds := λ x s, lift1 (fmap (λ a, (a + s)%Q)) x;
  arr_clip := λ x lo hi, lift1 (fmap (λ a, Qclip a lo hi)) x;
  arr_mean := λ x, NDArray [] [Qred (Qmean (data x))];
  one_minus := λ d,
    NDArray (shape d) ((λ b : bool, (1 - (if b then 1 else 0))%Q) <$> data d)
|}.

#[export] Instance Qarray_lib : ArrayLib (ndarray Q) := {|
  jnp_zeros := λ s, NDArray s (replicate (numel s) 0%Q);
  jnp_exp := lift1 (fmap (λ a, (1 + a)%Q));
  jnp_std := λ x, NDArray [] [1%Q]
|}.

#[export] Instance Q_fill : FillValue Q := 0%Q.
#[export] Instance nat_fill : FillValue nat := 0.
#[export] Instance bool_fill : FillValue bool := true.

Definition ex_agents : list string := ["agent_0"; "agent_1"].

(** Every agent observes the step count plus its key; an episode ends
    every second step. *)
Definition ex_obs (keys : list nat) (t : nat) : gmap string (ndarray Q) :=
  let row := (λ k, inject_Z (Z.of_nat (k + t))) <$> keys in
  <["agent_0" := NDArray [length keys; 1] row]>
    (<["agent_1" := NDArray [length keys; 1] (Qopp <$> row)]> ∅).

Definition ex_env
    : Environment (F:=Q) (Ac:=nat) (Inf:=Q) (Key:=nat) (EnvState:=nat) := {|
  env_agents := ex_agents;
  env_observation_shape := [1];
  vmap_env_reset := λ keys, (ex_obs keys 0, 0);
  vmap_env_step := λ keys t act,
    let n := length keys in
    let ended := NDArray [n] (replicate n (Nat.odd t)) in
    let gain :=
      match act !! "agent_0" with
      | Some a => (λ i, inject_Z (Z.of_nat i)) <$> data a
      | None => replicate n 0%Q
      end in
    (ex_obs keys (Datatypes.S t), Datatypes.S t,
     <["agent_0" := NDArray [n] gain]>
       (<["agent_1" := NDArray [n] (replicate n 1%Q)]> ∅),
     <["agent_0" := ended]>
       (<["agent_1" := ended]> (<["__all__" := ended]> ∅)),
     <["returned_episode_returns" :=
         NDArray [n; 2] (replicate (n * 2) (inject_Z (Z.of_nat t)))]> ∅)
|}.

Definition ex_network
    : Network (F:=Q) (Ac:=nat) (Key:=nat) (Params:=Q) (Pi:=ndarray Q) := {|
  network_init := λ key init_x, 1%Q;
  network_apply := λ params x,
    (x, NDArray [hd 0 (shape x)] (Qmult params <$> data x));
  pi_sample := λ pi key,
    NDArray [hd 0 (shape pi)] (replicate (hd 0 (shape pi)) (key `mod` 2));
  pi_log_prob := λ pi action,
    NDArray [hd 0 (shape pi)] (replicate (hd 0 (shape pi)) (- 1)%Q);
  pi_entropy := λ pi,
    NDArray [hd 0 (shape pi)] (replicate (hd 0 (shape pi)) (1 # 2)%Q)
|}.

Definition ex_loss_sum (l : ndarray Q * (ndarray Q * ndarray Q * ndarray Q))
    : Q :=
  Qsum (data l.1).

Definition ex_engine
    : Engine (S:=Q) (F:=Q) (Key:=nat) (Params:=Q) (TrainState:=Q)
        (Tx:=unit) (Grads:=Q) := {|
  random_split := λ key, (key + 2, key + 1);
  random_split_n := λ key n, (λ i, key + i) <$> seq 0 n;
  random_permutation := λ key n,
    if Nat.odd key then reverse (seq 0 n) else seq 0 n;
  optax_chain := λ config, ();
  TrainState_create := λ params tx, params;
  params := λ train_state, train_state;
  apply_gradients := λ train_state grads,
    Qred (train_state - (1 # 4) * grads)%Q;
  value_and_grad := λ f params,
    (f params, Qred (ex_loss_sum (f (params + 1)%Q) - ex_loss_sum (f params))%Q)
|}.

(** The configuration as the user writes it, before [make_train]. *)
Definition ex_base_config (num_minibatches : nat) : Config Q := {|
  LR := (1 # 4000)%Q; NUM_ENVS := 2; NUM_STEPS := 2; TOTAL_TIMESTEPS := 8;
  UPDATE_EPOCHS := 2; NUM_MINIBATCHES := num_minibatches;
  GAMMA := (99 # 100)%Q; GAE_LAMBDA := (95 # 100)%Q; CLIP_EPS := (1 # 5)%Q;
  ENT_COEF := (1 # 100)%Q; VF_COEF := (1 # 2)%Q; MAX_GRAD_NORM := (1 # 2)%Q;
  ANNEAL_LR := true;
  NUM_ACTORS := 0; NUM_UPDATES := 0; MINIBATCH_SIZE := 0
|}.

Definition ex_config : Config Q := {|
  LR := (1 # 4000)%Q; NUM_ENVS := 2; NUM_STEPS := 2; TOTAL_TIMESTEPS := 8;
  UPDATE_EPOCHS := 2; NUM_MINIBATCHES := 2;
  GAMMA := (99 # 100)%Q; GAE_LAMBDA := (95 # 100)%Q; CLIP_EPS := (1 # 5)%Q;
  ENT_COEF := (1 # 100)%Q; VF_COEF := (1 # 2)%Q; MAX_GRAD_NORM := (1 # 2)%Q;
  ANNEAL_LR := true;
  NUM_ACTORS := 4; NUM_UPDATES := 2; MINIBATCH_SIZE := 4
|}.

(** Three minibatches do not divide the eight entries of a batch. *)
Definition ex_config_three_minibatches : Config Q := {|
  LR := (1 # 4000)%Q; NUM_ENVS := 2; NUM_STEPS := 2; TOTAL_TIMESTEPS := 8;
  UPDATE_EPOCHS := 2; NUM_MINIBATCHES := 3;
  GAMMA := (99 # 100)%Q; GAE_LAMBDA := (95 # 100)%Q; CLIP_EPS := (1 # 5)%Q;
  ENT_COEF := (1 # 100)%Q; VF_COEF := (1 # 2)%Q; MAX_GRAD_NORM := (1 # 2)%Q;
  ANNEAL_LR := true;
  NUM_ACTORS := 4; NUM_UPDATES := 2; MINIBATCH_SIZE := 2
|}.

(** A collected trajectory of two steps and four actors, with advantages
    and targets. *)
Definition ex_traj
    : Transition (ndarray bool) (ndarray nat) (ndarray Q) (ndarray Q)
        (gmap string (ndarray Q)) := {|
  done := NDArray [2; 4] [false; false; false; false; true; true; true; true];
  action := NDArray [2; 4] [0; 0; 0; 0; 1; 1; 1; 1];
  value := NDArray [2; 4] [3; 4; - 3; - 4; 9; 10; - 9; - 10]%Q;
  reward := NDArray [2; 4] [0; 0; 1; 1; 0; 0; 1; 1]%Q;
  log_prob := NDArray [2; 4] (replicate 8 (- 1)%Q);
  obs := NDArray [2; 4; 1] [3; 4; - 3; - 4; 9; 10; - 9; - 10]%Q;
  info :=
    <["returned_episode_returns" :=
        NDArray [2; 4] [0; 0; 0; 0; 1; 1; 1; 1]%Q]> ∅
|}.

Definition ex_advantages : ndarray Q :=
  NDArray [2; 4] [1; 2; 3; 4; 5; 6; 7; 8]%Q.

Definition ex_targets : ndarray Q :=
  NDArray [2; 4] [4; 6; 0; 0; 14; 16; - 2; - 2]%Q.

(** A single environment for [get_rollout]: the state counts the steps
    taken, both agents observe it, and the step taken from state 2 ends
    the episode. *)
Definition ex_single_env
    : Env (F:=Q) (Ac:=nat) (Inf:=Q) (Key:=nat) (EnvState:=nat) := {|
  env_obs_shape := [1];
  env_reset := λ key,
    (<["agent_0" := NDArray [1] [0%Q]]>
       (<["agent_1" := NDArray [1] [0%Q]]> ∅), 0);
  env_step := λ key t act,
    let ended := NDArray [] [bool_decide (2 ≤ t)] in
    let o := NDArray [1] [inject_Z (Z.of_nat (Datatypes.S t))] in
    (<["agent_0" := o]> (<["agent_1" := o]> ∅), Datatypes.S t,
     <["agent_0" := NDArray [] [1%Q]]>
       (<["agent_1" := NDArray [] [1%Q]]> ∅),
     <["agent_0" := ended]>
       (<["agent_1" := ended]> (<["__all__" := ended]> ∅)),
     ∅)
|}.

(** The same environment with agents of other names. *)
Definition ex_renamed_env
    : Env (F:=Q) (Ac:=nat) (Inf:=Q) (Key:=nat) (EnvState:=nat) := {|
  env_obs_shape := [1];
  env_reset := λ key,
    (<["adversary_0" := NDArray [1] [0%Q]]>
       (<["agent_1" := NDArray [1] [0%Q]]> ∅), 0);
  env_step := env_step ex_single_env
|}.

(** [jax.random.PRNGKey] of the example world, whose keys are numbers. *)
Definition ex_PRNGKey (seed : nat) : nat := seed.

(** An observation dictionary whose two agents see arrays of different
    shapes. *)
Definition ragged_dict : gmap string (ndarray nat) :=
  <["agent_0" := NDArray [2; 3] [1; 2; 3; 4; 5; 6]]>
    (<["agent_1" := NDArray [2; 2] [7; 8; 9; 10]]> ∅).

(** * Properties *)

#[local] Arguments reshape : simpl never.
#[local] Arguments stack : simpl never.
#[local] Arguments getitem : simpl never.
#[local] Arguments jnp_take : simpl never.
#[local] Arguments scan_n : simpl never.

(** ** The result monad *)

Lemma mapM_Ok {A B} (f : A → result B) (l : list A) (k : list B) :
  Forall2 (λ a b, f a = Ok b) l k → mapM f l = Ok k.
Proof.
  induction 1 as [|a b l k Hab _ IH]; [done|].
  cbn. rewrite Hab. cbn. rewrite IH. done.
Qed.

Lemma mapM_Ok_fmap {A B} (f : A → result B) (g : A → B) (l : list A) :
  (∀ a, a ∈ l → f a = Ok (g a)) → mapM f l = Ok (g <$> l).
Proof.
  intros Hf. apply mapM_Ok. apply Forall2_fmap_r, Forall_Forall2_diag.
  apply Forall_forall. done.
Qed.

(** ** Scans that trace their body *)

Lemma scan_n_Raise {C Y} (f : C → result (C * Y)) (init : C) (n : nat) e :
  f init = Raise e → scan_n f init n = Raise e.
Proof. intros Hf. unfold scan_n. by rewrite Hf. Qed.

Lemma scan_n_Ok_steps {C Y} (f : C → result (C * Y)) (init : C) (n : nat) r :
  scan_n f init n = Ok r → scan_steps f init n = Ok r.
Proof. unfold scan_n. by destruct (f init). Qed.

Lemma scan_n_steps {C Y} (f : C → result (C * Y)) (init : C) (n : nat) :
  0 < n → scan_n f init n = scan_steps f init n.
Proof.
  intros Hn. unfold scan_n. destruct n as [|n]; [lia|]. cbn.
  by destruct (f init).
Qed.

(** ** Shapes and blocks *)

Lemma length_block_concat {A} (r i : nat) (ls : list (list A)) (l : list A) :
  Forall (λ l', length l' = r) ls → ls !! i = Some l →
  block r i (concat ls) = l.
Proof.
  unfold block. intros Hall. revert i.
  induction Hall as [|l' ls Hl' _ IH]; intros [|i] Hi; try done.
  - injection Hi as ->. cbn. rewrite <-Hl'. apply take_app_length.
  - cbn in Hi. cbn [concat]. rewrite <-(IH i Hi). f_equal.
    replace (S i * r) with (length l' + i * r) by lia.
    apply drop_app_add.
Qed.

Lemma block_S {A} (r i : nat) (l : list A) :
  block r (S i) l = block r i (drop r l).
Proof. unfold block. by rewrite drop_drop. Qed.

Lemma concat_blocks {A} (r n : nat) (l : list A) :
  length l = n * r → concat ((λ i, block r i l) <$> seq 0 n) = l.
Proof.
  revert l. induction n as [|n IH]; intros l Hl.
  - by destruct l.
  - cbn [seq fmap list_fmap concat]. rewrite <-fmap_S_seq, <-list_fmap_compose.
    erewrite (list_fmap_ext _ (λ i, block r i (drop r l))); last first.
    { intros ? i _. apply block_S. }
    rewrite IH by (rewrite length_drop; lia).
    unfold block. cbn. rewrite drop_0. apply take_drop.
  Qed.

Lemma length_block {A} (r i n : nat) (l : list A) :
  length l = n * r → i < n → length (block r i l) = r.
Proof.
  intros Hl Hi. unfold block. rewrite length_take, length_drop. nia.
Qed.

Lemma reshape_rows {A} (x : ndarray A) (n m : nat) :
  numel (shape x) = n * m → n ≠ 0 →
  reshape x [Dim n; Infer] = Ok (NDArray [n; m] (data x)).
Proof.
  intros Hsz Hn. unfold reshape. cbn. rewrite Nat.mul_1_r, Hsz.
  rewrite decide_False by done.
  rewrite decide_True by (rewrite Nat.mul_comm; apply Nat.Div0.mod_mul).
  rewrite Nat.mul_comm, Nat.div_mul by done. done.
Qed.

Lemma reshape_agents {A} (x : ndarray A) (n ne m : nat) :
  numel (shape x) = n * ne * m → n ≠ 0 → ne ≠ 0 →
  reshape x [Dim n; Dim ne; Infer] = Ok (NDArray [n; ne; m] (data x)).
Proof.
  intros Hsz Hn Hne. unfold reshape. cbn. rewrite Nat.mul_1_r, Hsz.
  rewrite decide_False by lia.
  rewrite decide_True by (rewrite Nat.mul_comm; apply Nat.Div0.mod_mul).
  rewrite (Nat.mul_comm _ m), Nat.div_mul by lia. done.
Qed.

Section batch_adapter_facts.
Context {A : Type}.
Implicit Types (x : gmap string (ndarray A)) (y : ndarray A).
Implicit Types (agent_list : list string) (xs : list (ndarray A)).

Lemma mapM_dict_get x agent_list xs :
  Forall2 (λ a v, x !! a = Some v) agent_list xs →
  mapM (dict_get x) agent_list = Ok xs.
Proof.
  intros Hxs. apply mapM_Ok. eapply Forall2_impl; [done|].
  intros a v Hav. unfold dict_get. by rewrite Hav.
Qed.

Lemma stack_Ok xs s :
  xs ≠ [] → Forall (λ v, shape v = s) xs →
  stack xs = Ok (NDArray (length xs :: s) (concat (data <$> xs))).
Proof.
  intros Hne Hall. destruct xs as [|v xs]; [done|]. unfold stack.
  assert (shape v = s) as Hv by (by inversion Hall).
  rewrite decide_True; [by rewrite Hv|].
  eapply Forall_impl; [done|]. intros w Hw. cbn in Hw. congruence.
Qed.

(** What [batchify] returns on a dictionary that has every listed agent,
    with values of one shape whose leading axis is [num_envs]. *)
Lemma batchify_Ok x agent_list xs num_envs rest :
  Forall2 (λ a v, x !! a = Some v) agent_list xs →
  agent_list ≠ [] → 0 < num_envs →
  Forall (λ v, shape v = num_envs :: rest) xs →
  batchify x agent_list (length agent_list * num_envs)
  = Ok (NDArray [length agent_list * num_envs; numel rest]
          (concat (data <$> xs))).
Proof.
  intros Hxs Hne Henv Hshape. unfold batchify.
  rewrite (mapM_dict_get _ _ _ Hxs). cbn.
  pose proof (Forall2_length _ _ _ Hxs) as Hlen.
  rewrite (stack_Ok _ (num_envs :: rest)); [|by destruct xs, agent_list|done].
  rewrite <-Hlen. cbn. apply reshape_rows.
  - cbn. fold (numel rest). apply Nat.mul_assoc.
  - destruct agent_list; [done|]. cbn. lia.
Qed.

(** What [unbatchify] returns on a flat array of one row per actor. *)
Lemma unbatchify_Ok y agent_list num_envs m :
  agent_list ≠ [] → 0 < num_envs →
  shape y = [length agent_list * num_envs; m] →
  unbatchify y agent_list num_envs (length agent_list)
  = Ok (dict_of (zip agent_list
          ((λ i, NDArray [num_envs; m]
                   (block (numel [num_envs; m]) i (data y)))
           <$> seq 0 (length agent_list)))).
Proof.
  intros Hne Henv Hshape. unfold unbatchify.
  rewrite (reshape_agents _ (length agent_list) num_envs m);
    [|rewrite Hshape; cbn; lia|by destruct agent_list|lia].
  cbn. erewrite mapM_Ok_fmap; [done|].
  intros i Hi. apply elem_of_seq in Hi. unfold getitem. cbn.
  destruct (length agent_list) as [|n] eqn:Hn; [lia|].
  replace (i `min` n) with i by lia. done.
Qed.

Lemma dict_of_lookup_Some (kvs : list (string * ndarray A)) k v :
  dict_of kvs !! k = Some v → (k, v) ∈ kvs.
Proof.
  unfold dict_of. intros Hk. apply elem_of_list_to_map_2 in Hk.
  by apply elem_of_reverse.
Qed.

Lemma dict_of_lookup_None (kvs : list (string * ndarray A)) k :
  dict_of kvs !! k = None ↔ k ∉ kvs.*1.
Proof.
  unfold dict_of. rewrite <-not_elem_of_list_to_map, fmap_reverse.
  by rewrite elem_of_reverse.
Qed.

Lemma dict_of_lookup_NoDup (kvs : list (string * ndarray A)) k v :
  NoDup kvs.*1 → (k, v) ∈ kvs → dict_of kvs !! k = Some v.
Proof.
  unfold dict_of. intros Hnd Hk. apply elem_of_list_to_map_1.
  - by rewrite fmap_reverse, reverse_Permutation.
  - by apply elem_of_reverse.
Qed.

End batch_adapter_facts.

Lemma mapM_cons {A B} (f : A → result B) (a : A) (l : list A) :
  mapM f (a :: l) = (y ← f a; k ← mapM f l; mret (y :: k)).
Proof. done. Qed.

Lemma mapM_result_ext {A B} (f g : A → result B) (l : list A) :
  (∀ a, a ∈ l → f a = g a) → mapM f l = mapM g l.
Proof.
  induction l as [|a l IH]; intros Hfg; [done|].
  cbn. rewrite Hfg by left. destruct (g a); [|done]. cbn.
  rewrite IH; [done|]. intros b Hb. apply Hfg. by right.
Qed.

Lemma fmap_seq_lookup {A} (f : nat → A) (l : list A) :
  (∀ i v, l !! i = Some v → f i = v) → f <$> seq 0 (length l) = l.
Proof.
  intros Hf. apply list_eq. intros i. rewrite list_lookup_fmap.
  destruct (l !! i) as [v|] eqn:Hi.
  - rewrite lookup_seq_lt by (by eapply lookup_lt_Some). cbn.
    f_equal. by apply Hf.
  - rewrite lookup_seq_ge by (by apply lookup_ge_None). done.
Qed.

Section batch_adapter_laws.
Context {A : Type}.
Implicit Types (x : gmap string (ndarray A)) (y : ndarray A).
Implicit Types (agent_list : list string).

Lemma dict_values_exist x agent_list :
  (∀ a, a ∈ agent_list → is_Some (x !! a)) →
  ∃ xs, Forall2 (λ a v, x !! a = Some v) agent_list xs.
Proof.
  induction agent_list as [|a l IH]; intros Hall.
  - exists []. constructor.
  - destruct (Hall a) as [v Hv]; [left|].
    destruct IH as [xs Hxs]; [intros b Hb; apply Hall; by right|].
    exists (v :: xs). by constructor.
Qed.

Lemma mapM_dict_get_missing x agent_list a :
  a ∈ agent_list → x !! a = None →
  ∃ k, k ∈ agent_list ∧ x !! k = None
       ∧ mapM (dict_get x) agent_list = Raise (KeyError k).
Proof.
  induction agent_list as [|b l IH]; intros Ha Hx; [by inversion Ha|].
  destruct (x !! b) as [v|] eqn:Hb.
  - assert (a ∈ l) as Hal.
    { apply elem_of_cons in Ha as [->|]; [congruence|done]. }
    destruct (IH Hal Hx) as (k & Hk & Hxk & Hm).
    exists k. split_and!; [by right|done|].
    rewrite mapM_cons, Hm. unfold dict_get. by rewrite Hb.
  - exists b. split_and!; [left|done|].
    rewrite mapM_cons. unfold dict_get. by rewrite Hb.
Qed.

(** Claim C9, as the code has it: [batchify] raises [KeyError] when the
    dictionary lacks one of the listed agents, and then on the first
    listed agent that is missing. A key of the dictionary that is not in
    the agent list is never looked at: two dictionaries that agree on
    the listed agents give the same result. *)
Theorem batchify_keys x agent_list num_actors :
  ((∃ a, a ∈ agent_list ∧ x !! a = None) →
   ∃ k, k ∈ agent_list ∧ x !! k = None
        ∧ batchify x agent_list num_actors = Raise (KeyError k))
  ∧ (∀ x', (∀ a, a ∈ agent_list → x' !! a = x !! a) →
           batchify x' agent_list num_actors
           = batchify x agent_list num_actors).
Proof.
  split.
  - intros (a & Ha & Hx).
    destruct (mapM_dict_get_missing x agent_list a Ha Hx)
      as (k & Hk & Hxk & Hm).
    exists k. split_and!; [done..|]. unfold batchify. by rewrite Hm.
  - intros x' Hagree. unfold batchify.
    rewrite (mapM_result_ext (dict_get x') (dict_get x)); [done|].
    intros a Ha. unfold dict_get. by rewrite Hagree.
Qed.

(** Claim C2, as the code has it: with a non-empty agent list, at least
    one environment, and dictionary values of shape
    [(num_envs, feature_dim)], [unbatchify] undoes [batchify]; and with
    agents listed once each, [batchify] undoes [unbatchify] on every flat
    array of shape [(num_actors, feature_dim)]. *)
Theorem batch_adapter_round_trip agent_list (num_envs feature_dim : nat) :
  agent_list ≠ [] → 0 < num_envs →
  (∀ x,
     dom x = list_to_set agent_list →
     (∀ a v, x !! a = Some v →
             shape v = [num_envs; feature_dim] ∧ wf_array v) →
     (y ← batchify x agent_list (length agent_list * num_envs);
      unbatchify y agent_list num_envs (length agent_list)) = Ok x)
  ∧ (∀ y,
       NoDup agent_list →
       shape y = [length agent_list * num_envs; feature_dim] →
       wf_array y →
       (x ← unbatchify y agent_list num_envs (length agent_list);
        batchify x agent_list (length agent_list * num_envs)) = Ok y).
Proof.
  intros Hne Henv. split.
  - intros x Hdom Hwf.
    destruct (dict_values_exist x agent_list) as [xs Hxs].
    { intros a Ha. apply (elem_of_dom (D:=gset string)).
      rewrite Hdom. by apply elem_of_list_to_set. }
    pose proof (Forall2_length _ _ _ Hxs) as Hlen.
    assert (Forall (λ v, shape v = [num_envs; feature_dim] ∧ wf_array v) xs)
      as Hall.
    { apply Forall_forall. intros v Hv.
      apply list_elem_of_lookup in Hv as [i Hi].
      destruct (Forall2_lookup_r _ _ _ _ _ Hxs Hi) as (a & _ & Ha).
      eauto. }
    rewrite (batchify_Ok x agent_list xs num_envs [feature_dim]);
      [|done..|by eapply Forall_impl; [done|]; intros ? []].
    cbn [mbind result_bind].
    rewrite (unbatchify_Ok _ _ _ (numel [feature_dim])); [|done..].
    f_equal. cbn [data numel foldr]. rewrite Nat.mul_1_r, Hlen.
    rewrite (fmap_seq_lookup _ xs); last first.
    { intros i v Hi.
      rewrite (length_block_concat _ _ _ (data v)).
      - pose proof (Forall_lookup_1 _ _ _ _ Hall Hi) as [Hs _].
        destruct v; cbn in *. by rewrite Hs.
      - apply Forall_fmap. eapply Forall_impl; [done|].
        intros w [Hs Hw]. cbn. rewrite Hw, Hs. cbn. lia.
      - by rewrite list_lookup_fmap, Hi. }
    apply map_eq. intros k.
    destruct (dict_of (zip agent_list xs) !! k) as [v|] eqn:Hk.
    + apply dict_of_lookup_Some in Hk.
      apply list_elem_of_lookup in Hk as [i Hi].
      apply lookup_zip_with_Some in Hi as (a & w & [= <- <-] & Ha & Hw).
      symmetry. exact (Forall2_lookup_lr _ _ _ _ _ _ Hxs Ha Hw).
    + apply dict_of_lookup_None in Hk.
      rewrite fst_zip in Hk by lia.
      symmetry. apply (not_elem_of_dom (D:=gset string)).
      rewrite Hdom. by rewrite elem_of_list_to_set.
  - intros y Hnd Hshape Hwf.
    rewrite (unbatchify_Ok _ _ _ feature_dim); [|done..].
    cbn [mbind result_bind].
    set (rows := (λ i, NDArray [num_envs; feature_dim] _) <$> _).
    assert (length rows = length agent_list) as Hlen.
    { unfold rows. by rewrite length_fmap, length_seq. }
    rewrite (batchify_Ok _ agent_list rows num_envs [feature_dim]);
      [|..|done|done|].
    + replace (data <$> rows)
        with ((λ i, block (numel [num_envs; feature_dim]) i (data y))
              <$> seq 0 (length agent_list))
        by (unfold rows; by rewrite <-list_fmap_compose).
      rewrite (concat_blocks _ _ (data y)).
      * destruct y; cbn in *. rewrite Hshape. cbn.
        by rewrite Nat.mul_1_r.
      * rewrite Hwf, Hshape. cbn. lia.
    + apply Forall2_same_length_lookup_2; [done|].
      intros i a v Ha Hv. apply dict_of_lookup_NoDup.
      * by rewrite fst_zip by lia.
      * apply list_elem_of_lookup. exists i.
        apply lookup_zip_with_Some. eauto.
    + unfold rows. apply Forall_fmap, Forall_forall. done.
Qed.

End batch_adapter_laws.

(** The [done] dictionary carries the sentinel key next to the agent's,
    so its keys are not those of the agent list, and [batchify] returns
    the agent's row all the same. *)
Lemma batchify_accepts_extra_key :
  dom done_dict ≠ list_to_set ["agent_0"]
  ∧ batchify done_dict ["agent_0"] 2 = Ok (NDArray [2; 1] [false; true]).
Proof.
  split; [|by vm_compute].
  intros Hdom. assert ("__all__" ∈ dom done_dict) as Hin.
  { apply elem_of_dom. by eexists. }
  rewrite Hdom in Hin. apply elem_of_list_to_set in Hin.
  by apply list_elem_of_singleton in Hin.
Qed.

Lemma batchify_keys_witness :
  (∃ k, k ∈ ["agent_0"; "agent_1"] ∧ reward_dict !! k = None
        ∧ batchify reward_dict ["agent_0"; "agent_1"] 4
          = Raise (KeyError k))
  ∧ batchify (delete "__all__" done_dict) ["agent_0"] 2
    = batchify done_dict ["agent_0"] 2.
Proof.
  split.
  - apply (batchify_keys reward_dict ["agent_0"; "agent_1"] 4).
    exists "agent_1". split; [|done]. apply list_elem_of_In. simpl. tauto.
  - apply (batchify_keys done_dict ["agent_0"] 2).
    intros a Ha. apply list_elem_of_singleton in Ha as ->. done.
Defined.

(** A dictionary of per-environment rewards is well formed (its one key is
    the listed agent, its value has leading dimension 2), but its values
    have one axis only: the round trip hands back shape (2, 1). *)
Lemma round_trip_changes_shape :
  dom reward_dict = list_to_set ["agent_0"]
  ∧ (∀ a v, reward_dict !! a = Some v → leading v = 2 ∧ wf_array v)
  ∧ (y ← batchify reward_dict ["agent_0"] (1 * 2);
     unbatchify y ["agent_0"] 2 1)
    = Ok (<["agent_0" := NDArray [2; 1] [1%Q; 0%Q]]> ∅)
  ∧ (y ← batchify reward_dict ["agent_0"] (1 * 2);
     unbatchify y ["agent_0"] 2 1)
    ≠ Ok reward_dict.
Proof.
  assert ((y ← batchify reward_dict ["agent_0"] (1 * 2);
           unbatchify y ["agent_0"] 2 1)
          = Ok (<["agent_0" := NDArray [2; 1] [1%Q; 0%Q]]> ∅)) as Hrt
    by (by vm_compute).
  split_and!; [| |done|].
  - unfold reward_dict. rewrite dom_insert_L, dom_empty_L. set_solver.
  - intros a v Hv. unfold reward_dict in Hv.
    apply lookup_insert_Some in Hv as [[_ <-]|[_ Hv]]; [done|].
    by rewrite lookup_empty in Hv.
  - rewrite Hrt. intros Heq.
    apply (f_equal (λ r, match r with
                         | Ok d => shape <$> d !! "agent_0"
                         | Raise _ => None
                         end)) in Heq.
    by vm_compute in Heq.
Qed.

(** Without agents there is nothing to stack, without environments the
    feature dimension cannot be inferred, and with an agent listed twice
    the second round trip loses the first agent's rows. *)
Example batchify_no_agents :
  batchify (∅ : gmap string (ndarray nat)) [] 0 = Raise ShapeMismatch.
Proof. done. Qed.

Example batchify_no_envs :
  batchify (<["agent_0" := NDArray [0; 3] []]> ∅
            : gmap string (ndarray nat)) ["agent_0"] 0
  = Raise ZeroDivisionError.
Proof. by vm_compute. Qed.

Example round_trip_repeated_agent :
  (x ← unbatchify (NDArray [2; 1] [1; 2]) ["agent_0"; "agent_0"] 1 2;
   batchify x ["agent_0"; "agent_0"] 2)
  = Ok (NDArray [2; 1] [2; 2]).
Proof. by vm_compute. Qed.

Lemma batch_adapter_round_trip_witness :
  (y ← batchify obs_dict ["agent_0"; "agent_1"] (2 * 2);
   unbatchify y ["agent_0"; "agent_1"] 2 2) = Ok obs_dict
  ∧ (x ← unbatchify (NDArray [4; 3] (seq 1 12)) ["agent_0"; "agent_1"] 2 2;
     batchify x ["agent_0"; "agent_1"] (2 * 2))
    = Ok (NDArray [4; 3] (seq 1 12)).
Proof.
  destruct (batch_adapter_round_trip (A:=nat) ["agent_0"; "agent_1"] 2 3)
    as [H1 H2]; [done|lia|].
  split.
  - apply H1.
    + unfold obs_dict. rewrite !dom_insert_L, dom_empty_L. set_solver.
    + intros a v Hv. unfold obs_dict in Hv.
      apply lookup_insert_Some in Hv as [[_ <-]|[_ Hv]]; [done|].
      apply lookup_insert_Some in Hv as [[_ <-]|[_ Hv]]; [done|].
      by rewrite lookup_empty in Hv.
  - apply H2; [|done..].
    apply NoDup_cons. split; [|apply NoDup_singleton].
    intros Hin. by apply list_elem_of_singleton in Hin.
Defined.

(** ** The advantage estimator *)

Section gae_facts.
Context {S V B : Type} `{!ArrayArith S V B} {Act O I : Type}.
Variables GAMMA GAE_LAMBDA : S.
Implicit Types (traj_batch : list (Transition B Act V O I)).
Implicit Types (transition : Transition B Act V O I) (last_val : V).

Lemma scan_reverse_gae_cons transition traj_batch init :
  scan_reverse (_get_advantages GAMMA GAE_LAMBDA) init
    (transition :: traj_batch)
  = let r := scan_reverse (_get_advantages GAMMA GAE_LAMBDA) init
               traj_batch in
    let a := advantage_of GAMMA GAE_LAMBDA transition r.1.2 r.1.1 in
    ((a, value transition), a :: r.2).
Proof.
  cbn. destruct (scan_reverse _ _ _) as [[gae next_value] ys]. done.
Qed.

(** What the scan carries after it has walked a suffix of the
    trajectory: the advantage and the value of the suffix's first step. *)
Lemma scan_reverse_gae_carry traj_batch zero last_val :
  let r := scan_reverse (_get_advantages GAMMA GAE_LAMBDA)
             (zero, last_val) traj_batch in
  length r.2 = length traj_batch
  ∧ r.1.1 = default zero (r.2 !! 0)
  ∧ r.1.2 = default last_val (value <$> traj_batch !! 0).
Proof.
  destruct traj_batch as [|transition traj_batch]; [done|].
  rewrite scan_reverse_gae_cons. cbn. split; [|done]. f_equal.
  induction traj_batch as [|tr' l IH]; [done|].
  rewrite scan_reverse_gae_cons. cbn. by rewrite IH.
Qed.

Lemma scan_reverse_gae_step traj_batch zero last_val t transition :
  traj_batch !! t = Some transition →
  (scan_reverse (_get_advantages GAMMA GAE_LAMBDA) (zero, last_val)
     traj_batch).2 !! t
  = Some (advantage_of GAMMA GAE_LAMBDA transition
            (default last_val (value <$> traj_batch !! Datatypes.S t))
            (default zero
               ((scan_reverse (_get_advantages GAMMA GAE_LAMBDA)
                   (zero, last_val) traj_batch).2 !! Datatypes.S t))).
Proof.
  revert t. induction traj_batch as [|tr l IH]; intros t Ht; [done|].
  rewrite scan_reverse_gae_cons. cbn zeta. cbn [snd].
  destruct t as [|t].
  - injection Ht as ->. cbn [lookup list_lookup].
    destruct (scan_reverse_gae_carry l zero last_val) as (_ & -> & ->).
    done.
  - cbn in Ht. cbn [lookup list_lookup]. by apply IH.
Qed.

(** Claim C1: the advantages and targets of [_calculate_gae] obey the
    backward recursion. There is one advantage and one target per step;
    at step [t] the advantage is [delta_t + gamma * lambda * (1 - done_t)
    * advantage_{t+1}] with [delta_t = reward_t + gamma * next_value_t *
    (1 - done_t) - value_t], where past the last step the advantage is
    zero and the next value is the bootstrap value, and the target is
    the advantage plus the value. *)
Theorem calculate_gae_recursion traj_batch last_val t transition :
  traj_batch !! t = Some transition →
  let advantages :=
    (_calculate_gae GAMMA GAE_LAMBDA traj_batch last_val).1 in
  let targets :=
    (_calculate_gae GAMMA GAE_LAMBDA traj_batch last_val).2 in
  let next_value :=
    default last_val (value <$> traj_batch !! Datatypes.S t) in
  let next_advantage :=
    default (zeros_like last_val) (advantages !! Datatypes.S t) in
  let advantage :=
    arr_add
      (arr_sub
         (arr_add (reward transition)
            (arr_mul (arr_smul GAMMA next_value)
               (one_minus (done transition))))
         (value transition))
      (arr_mul
         (arr_smul (fmul GAMMA GAE_LAMBDA) (one_minus (done transition)))
         next_advantage) in
  length advantages = length traj_batch
  ∧ length targets = length traj_batch
  ∧ advantages !! t = Some advantage
  ∧ targets !! t = Some (arr_add advantage (value transition)).
Proof.
  intros Ht. unfold _calculate_gae.
  pose proof (scan_reverse_gae_carry traj_batch (zeros_like last_val)
                last_val) as (Hlen & _).
  pose proof (scan_reverse_gae_step traj_batch (zeros_like last_val)
                last_val t transition Ht) as Hstep.
  destruct (scan_reverse _ _ _) as [c advantages]. cbn in *.
  split_and!; [done| |done|].
  - rewrite length_zip_with, length_fmap. lia.
  - rewrite lookup_zip_with, Hstep, list_lookup_fmap, Ht. done.
Qed.

End gae_facts.

Lemma calculate_gae_recursion_witness :
  (_calculate_gae (99 # 100)%Q (95 # 100)%Q scenario (1 # 2)%Q).1 !! 3
  = Some (1 + (99 # 100) * (1 # 2) * (1 - 1) - (1 # 2)
          + (99 # 100) * (95 # 100) * (1 - 1) * 0)%Q.
Proof.
  exact (proj1 (proj2 (proj2
    (calculate_gae_recursion (99 # 100)%Q (95 # 100)%Q scenario
       (1 # 2)%Q 3 (scenario_step true (1 # 2) 1) eq_refl)))).
Defined.

(** Claim C8: on the four-step scenario with gamma 0.99, lambda 0.95 and
    bootstrap value 0.5 the advantage of the last step is 1 - 0.5 = 0.5,
    and the earlier ones are the values the recursion gives by hand:
    A2 = -0.005 + 0.9405 * A3, A1 = -0.005 + 0.9405 * A2 and
    A0 = 0.995 + 0.9405 * A1. *)
Theorem gae_scenario :
  let advantages :=
    (_calculate_gae (99 # 100)%Q (95 # 100)%Q scenario (1 # 2)%Q).1 in
  Forall2 Qeq advantages
    [22429277621 # 16000000000; 3460541 # 8000000; 1861 # 4000; 1 # 2]%Q
  ∧ (∃ a0 a1 a2 a3, advantages = [a0; a1; a2; a3]
       ∧ (a3 == 1 - (1 # 2))%Q
       ∧ (a2 == - (5 # 1000) + (9405 # 10000) * a3)%Q
       ∧ (a1 == - (5 # 1000) + (9405 # 10000) * a2)%Q
       ∧ (a0 == (995 # 1000) + (9405 # 10000) * a1)%Q).
Proof.
  split.
  - repeat constructor.
  - do 4 eexists. split; [reflexivity|]. by vm_compute.
Qed.

(** ** The loss blocks in exact arithmetic *)


Lemma Qclip_range (r lo hi : Q) :
  (lo <= hi → lo <= Qclip r lo hi <= hi)%Q.
Proof.
  intros Hlo. unfold Qclip.
  destruct (Q.max_spec r lo) as [[H1 H1']|[H1 H1']];
    destruct (Q.min_spec (Qmax r lo) hi) as [[H2 H2']|[H2 H2']];
    rewrite H2'; lra.
Qed.

Lemma broadcast2_zip_with (f : Q → Q → Q) (x y : list Q) :
  length x = length y → broadcast2 f x y = zip_with f x y.
Proof. destruct x as [|a [|a' x]], y as [|b [|b' y]]; done. Qed.

Lemma Qsum_proper (l1 l2 : list Q) :
  Forall2 Qeq l1 l2 → (Qsum l1 == Qsum l2)%Q.
Proof.
  induction 1 as [|a b l1 l2 Hab _ IH]; [reflexivity|].
  cbn. by rewrite Hab, IH.
Qed.

Lemma Qmean_proper (l1 l2 : list Q) :
  Forall2 Qeq l1 l2 → (Qmean l1 == Qmean l2)%Q.
Proof.
  intros H. unfold Qmean.
  rewrite (Qsum_proper _ _ H), (Forall2_length _ _ _ H). reflexivity.
Qed.

Section value_loss_facts.
Variable eps : Q.




End value_loss_facts.


(** A ratio inside the clipping range, clipping width 0.2, advantage 1:
    the actor term is -1.2, larger in size than the advantage. Outside the
    range, with a negative advantage, the term is not clipped at all. *)
Lemma actor_term_exceeds_advantage :
  let eps := (1 # 5)%Q in
  let ratio := (6 # 5)%Q in
  let advantage := 1%Q in
  (1 - eps <= ratio <= 1 + eps)%Q
  ∧ (loss_actor_terms eps ratio advantage == - (6 # 5))%Q
  ∧ ¬ (Qabs (loss_actor_terms eps ratio advantage) <= Qabs advantage)%Q.
Proof.
  cbv zeta. split_and!; by vm_compute.
Qed.

Example actor_term_unclipped :
  (loss_actor_terms (1 # 5) 100 (- 1) == 100)%Q.
Proof. by vm_compute. Qed.

(** Claim C6, as the code has it: for a clipping width [eps >= 0] and a
    ratio [>= 0], the actor term of one entry is at most [(1 + eps)] times
    the size of the advantage, provided the advantage is not negative or
    the ratio is at most [1 + eps]. *)
Theorem actor_term_bound (eps ratio advantage : Q) :
  (0 <= eps)%Q → (0 <= ratio)%Q →
  (0 <= advantage ∨ ratio <= 1 + eps)%Q →
  (Qabs (loss_actor_terms eps ratio advantage)
   <= (1 + eps) * Qabs advantage)%Q.
Proof.
  intros He Hr Ha. unfold loss_actor_terms.
  cbn [arr_neg arr_minimum arr_mul arr_clip fsub fadd fone Q_arith].
  destruct (Qclip_range ratio (1 - eps) (1 + eps)) as [Hc0 Hc1]; [lra|].
  assert (0 <= Qclip ratio (1 - eps) (1 + eps))%Q as Hc.
  { unfold Qclip in *.
    destruct (Q.max_spec ratio (1 - eps)) as [[H1 H1']|[H1 H1']];
      destruct (Q.min_spec (Qmax ratio (1 - eps)) (1 + eps))
        as [[H2 H2']|[H2 H2']];
      rewrite H2' in *; lra. }
  set (c := Qclip ratio (1 - eps) (1 + eps)) in *. clearbody c.
  apply Qabs_case; intros Hm; apply Qabs_case; intros Ha';
    destruct (Q.min_spec (ratio * advantage) (c * advantage))
      as [[H2 H2']|[H2 H2']];
    rewrite H2' in *; nra.
Qed.

Lemma actor_term_bound_witness :
  (Qabs (loss_actor_terms (1 # 5) (6 # 5) 1) <= (1 + (1 # 5)) * Qabs 1)%Q.
Proof.
  apply (actor_term_bound (1 # 5) (6 # 5) 1); [by vm_compute..|].
  left. by vm_compute.
Defined.

(** ** Leaves of the batch under reshape and take *)

Lemma known_numel_Dim (s : list nat) : known_numel (Dim <$> s) = numel s.
Proof. induction s as [|n s IH]; [done|]. cbn. f_equal. exact IH. Qed.

Lemma count_infer_Dim (s : list nat) : count_infer (Dim <$> s) = 0.
Proof. induction s as [|n s IH]; [done|]. exact IH. Qed.

Lemma resolve_Dim (fill : nat) (s : list nat) : resolve fill (Dim <$> s) = s.
Proof.
  unfold resolve. rewrite <-list_fmap_compose. apply list_fmap_id.
Qed.

Lemma reshape_flat {X} (x : ndarray X) (H A : nat) (rest : list nat) :
  shape x = H :: A :: rest →
  reshape x (Dim (H * A) :: (Dim <$> drop 2 (shape x)))
  = Ok (flat_leaf (H * A) x).
Proof.
  intros Hshape. unfold reshape, flat_leaf. rewrite Hshape.
  change (drop 2 (H :: A :: rest)) with rest.
  cbn [count_infer foldr]. fold (count_infer (Dim <$> rest)).
  rewrite count_infer_Dim.
  cbn [known_numel foldr]. fold (known_numel (Dim <$> rest)).
  rewrite known_numel_Dim. cbn [numel foldr]. fold (numel rest).
  rewrite decide_True by nia.
  cbn [resolve fmap list_fmap]. fold (resolve 0 (Dim <$> rest)).
  by rewrite resolve_Dim.
Qed.

Lemma jnp_take_Ok {X} `{!FillValue X} (x : ndarray X) (n : nat)
    (rest indices : list nat) :
  shape x = n :: rest → Forall (λ i, i < n) indices →
  jnp_take x indices = Ok (take_leaf indices x).
Proof.
  intros Hshape Hin. unfold jnp_take, take_leaf. rewrite Hshape.
  cbn [tail]. do 3 f_equal. apply Forall_fmap_ext.
  eapply Forall_impl; [done|]. intros i Hi. cbn. by rewrite decide_True.
Qed.

Lemma reshape_split {X} (x : ndarray X) (n m : nat) (rest : list nat) :
  shape x = (m * n) :: rest → n ≠ 0 → numel rest ≠ 0 →
  reshape x ([Dim n; Infer] ++ (Dim <$> drop 1 (shape x)))
  = Ok (split_leaf n x).
Proof.
  intros Hshape Hn Hrest. unfold reshape, split_leaf, leading.
  rewrite Hshape. change (drop 1 (m * n :: rest)) with rest.
  cbn [app hd tail].
  cbn [count_infer foldr]. fold (count_infer (Dim <$> rest)).
  rewrite count_infer_Dim.
  cbn [known_numel foldr]. fold (known_numel (Dim <$> rest)).
  rewrite known_numel_Dim. cbn [numel foldr]. fold (numel rest).
  rewrite decide_False by nia.
  replace (m * n * numel rest) with (m * (n * numel rest)) by lia.
  rewrite Nat.Div0.mod_mul, Nat.div_mul by nia.
  rewrite decide_True by done.
  cbn [resolve fmap list_fmap]. fold (resolve m (Dim <$> rest)).
  rewrite resolve_Dim. by rewrite Nat.div_mul.
Qed.

Lemma dict_mapM_Ok {X Y} (f : ndarray X → result (ndarray Y))
    (g : ndarray X → ndarray Y) (m : gmap string (ndarray X)) :
  map_Forall (λ _ v, f v = Ok (g v)) m → dict_mapM f m = Ok (g <$> m).
Proof.
  intros Hm. unfold dict_mapM.
  rewrite (mapM_Ok_fmap _ (prod_map id g)).
  - cbn. f_equal. rewrite list_to_map_fmap. by rewrite list_to_map_to_list.
  - intros [k v] Hkv. apply elem_of_map_to_list in Hkv. cbn.
    by rewrite (Hm k v Hkv).
Qed.

(** ** Trees of arrays *)

Section tree_facts.
Context {F Ac Inf : Type}.
Context `{!FillValue F, !FillValue Ac, !FillValue Inf, !FillValue bool}.

Abbreviation V := (ndarray F).
Abbreviation Traj :=
  (Transition (ndarray bool) (ndarray Ac) V V (gmap string (ndarray Inf))).

Lemma tree_map_batch_Ok (f : leaf_fn) (g : leaf_pure) (P : leaf_pred)
    (batch : Traj * V * V) :
  (∀ X (fv : FillValue X) x, P X x → f X fv x = Ok (g X fv x)) →
  batch_Forall P batch →
  tree_map_batch f batch = Ok (tree_fmap_batch g batch).
Proof.
  intros Hfg. destruct batch as [[t a] v].
  intros [(Hd & Ha & Hv & Hr & Hl & Ho & Hi) [Hadv Htgt]].
  unfold tree_map_batch, tree_map_transition.
  rewrite !Hfg by done. cbn.
  rewrite (dict_mapM_Ok _ (g _ _)).
  - done.
  - intros k x Hx. apply Hfg. by apply (Hi k).
Qed.

Lemma batch_Forall_fmap (g : leaf_pure) (P Q : leaf_pred)
    (batch : Traj * V * V) :
  (∀ X (fv : FillValue X) x, P X x → Q X (g X fv x)) →
  batch_Forall P batch → batch_Forall Q (tree_fmap_batch g batch).
Proof.
  intros Hg. destruct batch as [[t a] v].
  intros [(Hd & Ha & Hv & Hr & Hl & Ho & Hi) [Hadv Htgt]].
  unfold tree_fmap_batch, batch_Forall, transition_Forall.
  split_and!; cbn; try by apply Hg.
  intros k x. rewrite lookup_fmap. intros Hx.
  destruct (info t !! k) as [y|] eqn:Hy; [|done].
  injection Hx as <-. apply Hg. by apply (Hi k).
Qed.

End tree_facts.

(** ** Entries of the minibatches *)

Lemma block_block {X} (r m k j : nat) (l : list X) :
  j < m → block r j (block (m * r) k l) = block r (k * m + j) l.
Proof.
  intros Hj. unfold block.
  replace (m * r) with (j * r + (m * r - j * r)) at 1 by nia.
  rewrite <-take_drop_commute, take_take, drop_drop.
  f_equal; [nia|]. f_equal. nia.
Qed.




(** ** The update epoch *)

Section update_epoch_facts.
Context {S F Ac Inf Key Params Pi TrainState Tx Grads : Type}.
Context `{!ArrayArith S (ndarray F) (ndarray bool)}.
Context `{!ArrayLib (ndarray F)}.
Context `{!FillValue F, !FillValue Ac, !FillValue Inf, !FillValue bool}.
Variable network : Network (F:=F) (Ac:=Ac) (Key:=Key) (Params:=Params) (Pi:=Pi).
Variable jax :
  Engine (S:=S) (F:=F) (Key:=Key) (Params:=Params) (TrainState:=TrainState)
    (Tx:=Tx) (Grads:=Grads).
Variable config : Config S.

Abbreviation V := (ndarray F).
Abbreviation Traj :=
  (Transition (ndarray bool) (ndarray Ac) V V (gmap string (ndarray Inf))).
Abbreviation batch_size :=
  (MINIBATCH_SIZE config * NUM_MINIBATCHES config).

Lemma flat_leaf_rows (H A : nat) X (x : ndarray X) :
  leaf_steps_actors H A X x → leaf_rows (H * A) X (flat_leaf (H * A) x).
Proof.
  intros (rest & Hshape & Hwf & Hrest). exists rest.
  unfold flat_leaf, wf_array in *. rewrite Hshape in *. cbn in *.
  split_and!; [done| |done]. rewrite Hwf, drop_0. apply Nat.mul_assoc.
Qed.

Lemma take_leaf_rows (n : nat) (indices : list nat) X (x : ndarray X) :
  leaf_rows n X x → Forall (λ i, i < n) indices →
  leaf_rows (length indices) X (take_leaf indices x).
Proof.
  intros (rest & Hshape & Hwf & Hrest) Hin. exists rest.
  unfold take_leaf, wf_array in *. rewrite Hshape in *. cbn in *.
  split_and!; [done| |done].
  fold (numel rest). induction Hin as [|i l Hi _ IH]; [done|].
  cbn. rewrite length_app, IH. f_equal.
  apply (length_block _ _ n); [by rewrite Hwf|done].
Qed.

Lemma permutation_in_range (indices : list nat) (n : nat) :
  indices ≡ₚ seq 0 n → Forall (λ i, i < n) indices ∧ length indices = n.
Proof.
  intros Hperm. split.
  - rewrite Hperm. apply Forall_seq. lia.
  - by rewrite Hperm, length_seq.
Qed.

Lemma update_epoch_Ok train_state (traj_batch : Traj) (advantages targets : V)
    (rng : Key) :
  let permutation :=
    random_permutation jax (random_split jax rng).2 batch_size in
  let minibatches :=
    minibatches_of config permutation (traj_batch, advantages, targets) in
  let r := scan (_update_minbatch network jax config) train_state
             (batch_slices minibatches) in
  batch_size = NUM_STEPS config * NUM_ACTORS config →
  NUM_MINIBATCHES config ≠ 0 →
  permutation ≡ₚ seq 0 batch_size →
  batch_Forall (leaf_steps_actors (NUM_STEPS config) (NUM_ACTORS config))
    (traj_batch, advantages, targets) →
  _update_epoch network jax config
    (train_state, traj_batch, advantages, targets, rng)
  = Ok ((r.1, traj_batch, advantages, targets, (random_split jax rng).1),
        r.2).
Proof.
  intros permutation minibatches r Hsize Hn Hperm Hwf.
  destruct (permutation_in_range _ _ Hperm) as [Hin Hlen].
  unfold _update_epoch. subst r minibatches permutation.
  destruct (random_split jax rng) as [rng' _rng]. cbn [fst snd] in *.
  rewrite decide_True by done.
  set (permutation := random_permutation jax _rng batch_size) in *.
  rewrite (tree_map_batch_Ok _ (λ X _, flat_leaf batch_size)
             (leaf_steps_actors (NUM_STEPS config) (NUM_ACTORS config)));
    [|intros X fv x (rest & Hshape & _); rewrite Hsize;
      by eapply reshape_flat|done].
  cbn [mbind result_bind].
  assert (batch_Forall (leaf_rows batch_size)
            (tree_fmap_batch (λ X _, flat_leaf batch_size)
               (traj_batch, advantages, targets))) as Hflat.
  { eapply batch_Forall_fmap; [|done]. intros X fv x Hx. rewrite Hsize.
    by apply flat_leaf_rows. }
  rewrite (tree_map_batch_Ok _ (λ X _, take_leaf permutation)
             (leaf_rows batch_size));
    [|intros X fv x (rest & Hshape & _); by eapply jnp_take_Ok|done].
  cbn [mbind result_bind].
  rewrite (tree_map_batch_Ok _
             (λ X _, split_leaf (NUM_MINIBATCHES config))
             (leaf_rows batch_size)).
  - cbn [mbind result_bind]. unfold minibatches_of.
    by destruct (scan _ _ _).
  - intros X fv x (rest & Hshape & _ & Hrest). by eapply reshape_split.
  - eapply batch_Forall_fmap; [|done]. intros X fv x Hx.
    pose proof (take_leaf_rows batch_size permutation X x Hx Hin) as Hrows.
    by rewrite Hlen in Hrows.
Qed.






(** An epoch hands back the trajectory, the advantages and the targets it
    was given. *)
Lemma update_epoch_frame train_state (traj_batch : Traj)
    (advantages targets : V) (rng : Key) update_state total_loss :
  _update_epoch network jax config
    (train_state, traj_batch, advantages, targets, rng)
  = Ok (update_state, total_loss) →
  ∃ train_state' rng',
    update_state = (train_state', traj_batch, advantages, targets, rng').
Proof.
  unfold _update_epoch. destruct (random_split jax rng) as [rng' _rng].
  case_decide; [|done].
  destruct (tree_map_batch _ _) as [batch|]; [|done]. cbn.
  destruct (tree_map_batch _ _) as [shuffled|]; [|done]. cbn.
  destruct (tree_map_batch _ _) as [minibatches|]; [|done]. cbn.
  destruct (scan _ _ _) as [train_state' losses].
  intros [= <- <-]. eauto.
Qed.

(** Claim C10: whatever number of epochs the update runs, the carried
    trajectory, advantages and targets come back as they went in; the
    train state and the key are all that an epoch may change. And the
    epochs do come back: with agreeing batch sizes, permutations of the
    batch indices and well-shaped leaves, every epoch returns. *)
Theorem update_epochs_frame (epochs : nat) train_state (traj_batch : Traj)
    (advantages targets : V) (rng : Key) :
  (∀ update_state loss_info,
     scan_n (_update_epoch network jax config)
       (train_state, traj_batch, advantages, targets, rng) epochs
     = Ok (update_state, loss_info) →
     ∃ train_state' rng',
       update_state = (train_state', traj_batch, advantages, targets, rng'))
  ∧ (batch_size = NUM_STEPS config * NUM_ACTORS config →
     NUM_MINIBATCHES config ≠ 0 →
     (∀ key, random_permutation jax key batch_size ≡ₚ seq 0 batch_size) →
     batch_Forall (leaf_steps_actors (NUM_STEPS config) (NUM_ACTORS config))
       (traj_batch, advantages, targets) →
     ∃ train_state' rng' loss_info,
       scan_n (_update_epoch network jax config)
         (train_state, traj_batch, advantages, targets, rng) epochs
       = Ok ((train_state', traj_batch, advantages, targets, rng'),
             loss_info)).
Proof.
  split.
  - intros update_state out Hrun. apply scan_n_Ok_steps in Hrun.
    revert train_state rng update_state out Hrun.
    induction epochs as [|n IH]; intros train_state rng update_state out.
    + intros [= <- <-]. eauto.
    + cbn [scan_steps].
      destruct (_update_epoch _ _ _ _) as [[st losses]|] eqn:Hepoch;
        [|done].
      apply update_epoch_frame in Hepoch as (ts' & rng' & ->). cbn.
      destruct (scan_steps _ _ n) as [[st' outs]|] eqn:Hrest; [|done].
      cbn. intros [= <- <-]. by eapply IH.
  - intros Hsize Hn Hperm Hwf.
    unfold scan_n. rewrite update_epoch_Ok by done.
    cbn [mbind result_bind]. revert train_state rng.
    induction epochs as [|n IH]; intros train_state rng.
    + by exists train_state, rng, [].
    + cbn [scan_steps]. rewrite update_epoch_Ok by done. cbn.
      edestruct IH as (ts' & rng' & outs & Hrest). rewrite Hrest.
      cbn. eauto.
Qed.

(** Claim C3: when [MINIBATCH_SIZE * NUM_MINIBATCHES] differs from
    [NUM_STEPS * NUM_ACTORS] the epoch raises the assertion error,
    whatever state it is given, and so does the scan over the epochs,
    whatever their number, since it traces the epoch before it runs any:
    no train state comes out of it. *)
Theorem update_epoch_rejects_mismatch
    (update_state : TrainState * Traj * V * V * Key) :
  batch_size ≠ NUM_STEPS config * NUM_ACTORS config →
  _update_epoch network jax config update_state
  = Raise (AssertionError
      "batch size must be equal to number of steps * number of actors")
  ∧ ∀ epochs,
      scan_n (_update_epoch network jax config) update_state epochs
      = Raise (AssertionError
          "batch size must be equal to number of steps * number of actors").
Proof.
  intros Hsize.
  assert (_update_epoch network jax config update_state
          = Raise (AssertionError
              "batch size must be equal to number of steps * number of actors"))
    as Hr.
  { unfold _update_epoch.
    destruct update_state as [[[[train_state traj_batch] advantages]
                                targets] rng].
    destruct (random_split jax rng) as [rng' _rng].
    by rewrite decide_False. }
  split; [done|]. intros epochs. unfold scan_n. by rewrite Hr.
Qed.

End update_epoch_facts.


(** ** The example world *)

Example make_train_ex_config :
  make_train_config (length ex_agents) (ex_base_config 2) = Ok ex_config.
Proof. reflexivity. Qed.

Example make_train_three_minibatches :
  make_train_config (length ex_agents) (ex_base_config 3)
  = Ok ex_config_three_minibatches.
Proof. reflexivity. Qed.

Example make_train_no_minibatches :
  make_train_config (length ex_agents) (ex_base_config 0)
  = Raise ZeroDivisionError.
Proof. reflexivity. Qed.

(** A configuration from [make_train_config] passes the assertion exactly
    when the minibatches divide the batch. *)
Lemma make_train_config_batch_size {S} (num_agents : nat)
    (config config' : Config S) :
  make_train_config num_agents config = Ok config' →
  MINIBATCH_SIZE config' * NUM_MINIBATCHES config'
  = NUM_STEPS config' * NUM_ACTORS config'
  ↔ (num_agents * NUM_ENVS config * NUM_STEPS config)
    `mod` NUM_MINIBATCHES config = 0.
Proof.
  unfold make_train_config, floordiv.
  repeat case_decide; try done. cbn. intros [= <-]. cbn.
  pose proof (Nat.div_mod_eq
                (num_agents * NUM_ENVS config * NUM_STEPS config)
                (NUM_MINIBATCHES config)).
  nia.
Qed.

Lemma ex_permutation (key n : nat) :
  random_permutation ex_engine key n ≡ₚ seq 0 n.
Proof. cbn. destruct (Nat.odd key); [apply reverse_Permutation|done]. Qed.

Lemma ex_leaf_steps_actors {X} (l : list X) (rest : list nat) :
  length l = 8 * numel rest → numel rest ≠ 0 →
  leaf_steps_actors 2 4 X (NDArray (2 :: 4 :: rest) l).
Proof.
  intros Hl Hrest. exists rest. split_and!; [done| |done].
  unfold wf_array. cbn. fold (numel rest). lia.
Qed.

Lemma ex_batch_wf :
  batch_Forall (leaf_steps_actors 2 4) (ex_traj, ex_advantages, ex_targets).
Proof.
  unfold batch_Forall, transition_Forall, ex_traj, ex_advantages,
    ex_targets. cbn [done action value reward log_prob obs info].
  split_and!; try by apply ex_leaf_steps_actors.
  intros k v Hv.
  apply lookup_insert_Some in Hv as [[_ <-]|[_ Hv]];
    [by apply ex_leaf_steps_actors|].
  by rewrite lookup_empty in Hv.
Qed.

Lemma update_epoch_rejects_mismatch_witness :
  scan_n (_update_epoch ex_network ex_engine ex_config_three_minibatches)
    (1%Q, ex_traj, ex_advantages, ex_targets, 0) 2
  = Raise (AssertionError
      "batch size must be equal to number of steps * number of actors").
Proof.
  apply (update_epoch_rejects_mismatch ex_network ex_engine
           ex_config_three_minibatches
           (1%Q, ex_traj, ex_advantages, ex_targets, 0)).
  cbn. lia.
Defined.

(** Without any epoch to run the scan still raises: the epoch is traced. *)
Example update_epochs_none_rejected :
  scan_n (_update_epoch ex_network ex_engine ex_config_three_minibatches)
    (1%Q, ex_traj, ex_advantages, ex_targets, 0) 0
  = Raise (AssertionError
      "batch size must be equal to number of steps * number of actors").
Proof. reflexivity. Qed.


Lemma update_epochs_frame_witness :
  ∃ train_state' rng' loss_info,
    scan_n (_update_epoch ex_network ex_engine ex_config)
      (1%Q, ex_traj, ex_advantages, ex_targets, 0) 2
    = Ok ((train_state', ex_traj, ex_advantages, ex_targets, rng'),
          loss_info).
Proof.
  destruct (update_epochs_frame ex_network ex_engine ex_config 2 1%Q
              ex_traj ex_advantages ex_targets 0) as [Hframe Hreturns].
  destruct Hreturns as (train_state' & rng' & loss_info & Hrun).
  - reflexivity.
  - discriminate.
  - intros key. apply ex_permutation.
  - apply ex_batch_wf.
  - destruct (Hframe _ _ Hrun) as (train_state'' & rng'' & Heq).
    exists train_state'', rng'', loss_info.
    rewrite Hrun. f_equal. f_equal. exact Heq.
Defined.

(** The example run does return, with the metrics of two updates. *)
Example train_ex_returns :
  ∃ runner_state metric,
    train ex_env ex_network ex_engine ex_config 0 = Ok (runner_state, metric)
    ∧ length metric = 2.
Proof.
  destruct (train ex_env ex_network ex_engine ex_config 0)
    as [[runner_state metric]|] eqn:Htrain; [|by vm_compute in Htrain].
  exists runner_state, metric. split; [done|].
  apply (f_equal (λ r, match r with
                       | Ok rm => length rm.2
                       | Raise _ => 0
                       end)) in Htrain.
  by vm_compute in Htrain.
Qed.

(** * Further properties of the code *)

(** ** What [make_train] writes into the configuration *)

Lemma make_train_config_inv {S} (num_agents : nat)
    (config config' : Config S) :
  make_train_config num_agents config = Ok config' →
  NUM_STEPS config ≠ 0 ∧ NUM_ENVS config ≠ 0 ∧ NUM_MINIBATCHES config ≠ 0
  ∧ config'
    = mkConfig (LR config) (NUM_ENVS config) (NUM_STEPS config)
        (TOTAL_TIMESTEPS config) (UPDATE_EPOCHS config)
        (NUM_MINIBATCHES config) (GAMMA config) (GAE_LAMBDA config)
        (CLIP_EPS config) (ENT_COEF config) (VF_COEF config)
        (MAX_GRAD_NORM config) (ANNEAL_LR config)
        (num_agents * NUM_ENVS config)
        (TOTAL_TIMESTEPS config `div` (NUM_STEPS config * NUM_ENVS config))
        ((num_agents * NUM_ENVS config * NUM_STEPS config)
         `div` NUM_MINIBATCHES config).
Proof.
  unfold make_train_config, floordiv.
  destruct (decide (NUM_STEPS config = 0)); [done|].
  destruct (decide (NUM_ENVS config = 0)); [done|].
  destruct (decide (NUM_MINIBATCHES config = 0)); [done|]. cbn.
  rewrite Nat.Div0.div_div. by intros [= <-].
Qed.

(** [make_train] fails, with a division by zero, exactly when the number
    of steps, of environments or of minibatches is zero; otherwise it
    writes the three derived entries and leaves the others alone. *)
Theorem make_train_config_outcome {S} (num_agents : nat) (config : Config S) :
  make_train_config num_agents config
  = if decide (NUM_STEPS config = 0 ∨ NUM_ENVS config = 0
               ∨ NUM_MINIBATCHES config = 0)
    then Raise ZeroDivisionError
    else Ok (mkConfig (LR config) (NUM_ENVS config) (NUM_STEPS config)
               (TOTAL_TIMESTEPS config) (UPDATE_EPOCHS config)
               (NUM_MINIBATCHES config) (GAMMA config) (GAE_LAMBDA config)
               (CLIP_EPS config) (ENT_COEF config) (VF_COEF config)
               (MAX_GRAD_NORM config) (ANNEAL_LR config)
               (num_agents * NUM_ENVS config)
               (TOTAL_TIMESTEPS config
                `div` (NUM_STEPS config * NUM_ENVS config))
               ((num_agents * NUM_ENVS config * NUM_STEPS config)
                `div` NUM_MINIBATCHES config)).
Proof.
  unfold make_train_config, floordiv.
  destruct (decide (_ ∨ _)) as [Hz|Hz].
  - destruct (decide (NUM_STEPS config = 0)); [done|].
    destruct (decide (NUM_ENVS config = 0)); [done|].
    destruct (decide (NUM_MINIBATCHES config = 0)); [done|]. tauto.
  - destruct (decide (NUM_STEPS config = 0)); [tauto|].
    destruct (decide (NUM_ENVS config = 0)); [tauto|].
    destruct (decide (NUM_MINIBATCHES config = 0)); [tauto|]. cbn.
    rewrite Nat.Div0.div_div. reflexivity.
Qed.

(** The updates [make_train] plans fit the budget of time steps, and one
    more update would not. *)
Theorem make_train_config_budget {S} (num_agents : nat)
    (config config' : Config S) :
  make_train_config num_agents config = Ok config' →
  NUM_UPDATES config' * (NUM_STEPS config * NUM_ENVS config)
  ≤ TOTAL_TIMESTEPS config
  < (NUM_UPDATES config' + 1) * (NUM_STEPS config * NUM_ENVS config).
Proof.
  intros (Hs & He & Hm & ->)%make_train_config_inv. cbn.
  pose proof (Nat.div_mod_eq (TOTAL_TIMESTEPS config)
                (NUM_STEPS config * NUM_ENVS config)) as Hdiv.
  pose proof (Nat.mod_upper_bound (TOTAL_TIMESTEPS config)
                (NUM_STEPS config * NUM_ENVS config)) as Hmod.
  nia.
Qed.

(** The minibatches [make_train] plans never hold more than the batch,
    fall short of it by less than the number of minibatches, and hold all
    of it exactly when that number divides the batch. *)
Theorem make_train_config_minibatches {S} (num_agents : nat)
    (config config' : Config S) :
  make_train_config num_agents config = Ok config' →
  let batch := NUM_STEPS config' * NUM_ACTORS config' in
  let covered := MINIBATCH_SIZE config' * NUM_MINIBATCHES config' in
  covered ≤ batch < covered + NUM_MINIBATCHES config'
  ∧ (covered = batch ↔ (NUM_MINIBATCHES config' | batch)).
Proof.
  intros (Hs & He & Hm & ->)%make_train_config_inv. cbn.
  set (b := num_agents * NUM_ENVS config * NUM_STEPS config).
  replace (NUM_STEPS config * (num_agents * NUM_ENVS config)) with b
    by (unfold b; lia).
  pose proof (Nat.div_mod_eq b (NUM_MINIBATCHES config)) as Hdiv.
  pose proof (Nat.mod_upper_bound b (NUM_MINIBATCHES config)) as Hmod.
  split; [nia|]. rewrite <-Nat.Lcm0.mod_divide. nia.
Qed.

Lemma make_train_config_budget_witness :
  2 * (2 * 2) ≤ 8 < (2 + 1) * (2 * 2).
Proof.
  apply (make_train_config_budget 2 (ex_base_config 2) ex_config).
  reflexivity.
Defined.

Lemma make_train_config_minibatches_witness :
  2 * 3 ≤ 2 * 4 < 2 * 3 + 3 ∧ (2 * 3 = 2 * 4 ↔ (3 | 2 * 4)).
Proof.
  apply (make_train_config_minibatches 2 (ex_base_config 3)
           ex_config_three_minibatches).
  reflexivity.
Defined.

(** ** Training on a batch the minibatches do not divide *)

Section mismatch_facts.
Context {S F Ac Inf Key EnvState Params Pi TrainState Tx Grads : Type}.
Context `{!ArrayArith S (ndarray F) (ndarray bool)}.
Context `{!ArrayLib (ndarray F)}.
Context `{!FillValue F, !FillValue Ac, !FillValue Inf, !FillValue bool}.
Variable env :
  Environment (F:=F) (Ac:=Ac) (Inf:=Inf) (Key:=Key) (EnvState:=EnvState).
Variable network :
  Network (F:=F) (Ac:=Ac) (Key:=Key) (Params:=Params) (Pi:=Pi).
Variable jax :
  Engine (S:=S) (F:=F) (Key:=Key) (Params:=Params) (TrainState:=TrainState)
    (Tx:=Tx) (Grads:=Grads).
Variable config : Config S.

Abbreviation V := (ndarray F).
Abbreviation Traj :=
  (Transition (ndarray bool) (ndarray Ac) V V (gmap string (ndarray Inf))).

Lemma update_epoch_mismatch (update_state : TrainState * Traj * V * V * Key) :
  MINIBATCH_SIZE config * NUM_MINIBATCHES config
  ≠ NUM_STEPS config * NUM_ACTORS config →
  _update_epoch network jax config update_state
  = Raise (AssertionError
      "batch size must be equal to number of steps * number of actors").
Proof.
  intros Hsize. unfold _update_epoch.
  destruct update_state as [[[[train_state traj_batch] advantages] targets]
                              rng].
  destruct (random_split jax rng) as [rng' _rng].
  by rewrite decide_False.
Qed.

Lemma update_epochs_mismatch (update_state : TrainState * Traj * V * V * Key)
    (epochs : nat) :
  MINIBATCH_SIZE config * NUM_MINIBATCHES config
  ≠ NUM_STEPS config * NUM_ACTORS config →
  ∃ e, scan_n (_update_epoch network jax config) update_state epochs
       = Raise e.
Proof.
  intros Hsize. eexists. apply scan_n_Raise.
  by apply update_epoch_mismatch.
Qed.

Lemma update_step_traj_mismatch runner_state :
  MINIBATCH_SIZE config * NUM_MINIBATCHES config
  ≠ NUM_STEPS config * NUM_ACTORS config →
  ∃ e, _update_step_traj env network jax config runner_state = Raise e.
Proof.
  intros Hsize. unfold _update_step_traj.
  destruct (scan_n _ runner_state _)
    as [[[[[train_state env_state] last_obs] rng] transitions]|e];
    cbn; [|eauto].
  destruct (stack_transitions transitions) as [traj_batch|e]; cbn; [|eauto].
  destruct (batchify last_obs _ _) as [last_obs_batch|e]; cbn; [|eauto].
  destruct (network_apply network _ _) as [pi last_val].
  destruct (_calculate_gae _ _ _ _) as [advantages targets].
  destruct (stack advantages) as [advantages'|e]; cbn; [|eauto].
  destruct (stack targets) as [targets'|e]; cbn; [|eauto].
  destruct (update_epochs_mismatch
              (train_state, traj_batch, advantages', targets', rng)
              (UPDATE_EPOCHS config) Hsize) as [e ->].
  cbn. eauto.
Qed.

(** When [make_train] is given a number of minibatches that does not
    divide the batch of [num_agents * NUM_ENVS * NUM_STEPS] entries, the
    training function it returns raises, whatever the key and whatever
    the numbers of updates and epochs, none included: the scans trace
    the update and the epoch before they run any. It never returns a
    trained state. *)
Theorem train_rejects_indivisible (base : Config S) (rng : Key) :
  make_train_config (length (env_agents env)) base = Ok config →
  ¬ (NUM_MINIBATCHES base
     | length (env_agents env) * NUM_ENVS base * NUM_STEPS base) →
  ∃ e, train env network jax config rng = Raise e.
Proof.
  intros Hmake Hdiv.
  assert (MINIBATCH_SIZE config * NUM_MINIBATCHES config
          ≠ NUM_STEPS config * NUM_ACTORS config) as Hsize.
  { apply make_train_config_inv in Hmake as (Hs & He & Hm & ->).
    cbn. intros Hsize. apply Hdiv.
    exists ((length (env_agents env) * NUM_ENVS base * NUM_STEPS base)
            `div` NUM_MINIBATCHES base). lia. }
  unfold train. cbv zeta.
  assert (∃ e, _update_step env network jax config
                 (init_runner_state env network jax config rng) = Raise e)
    as [e He].
  { unfold _update_step.
    destruct (update_step_traj_mismatch
                (init_runner_state env network jax config rng) Hsize)
      as [e He].
    rewrite He. cbn. eauto. }
  rewrite (scan_n_Raise _ _ _ e He). cbn. eauto.
Qed.

End mismatch_facts.

Lemma train_rejects_indivisible_witness :
  ∃ e, train ex_env ex_network ex_engine ex_config_three_minibatches 0
       = Raise e.
Proof.
  apply (train_rejects_indivisible ex_env ex_network ex_engine
           ex_config_three_minibatches (ex_base_config 3) 0).
  - reflexivity.
  - intros [k Hk]. cbn in Hk. lia.
Defined.

(** ** The layout of the batch adapter *)

Section batch_adapter_layout.
Context {A : Type}.
Implicit Types (x : gmap string (ndarray A)) (y : ndarray A).
Implicit Types (agent_list : list string) (xs : list (ndarray A)).

Lemma length_concat_data xs s :
  Forall (λ v, shape v = s ∧ wf_array v) xs →
  length (concat (data <$> xs)) = length xs * numel s.
Proof.
  induction 1 as [|v xs [Hs Hwf] _ IH]; [done|].
  cbn. rewrite length_app, IH, Hwf, Hs. done.
Qed.

(** [batchify] lays the agents out one after the other: with [num_envs]
    rows per agent, row [i * num_envs + e] of the flat array is row [e] of
    the array of the [i]-th listed agent, whatever the number of trailing
    axes, which are merged into one. *)
Theorem batchify_rows x agent_list xs (num_envs : nat) (rest : list nat) :
  Forall2 (λ a v, x !! a = Some v) agent_list xs →
  agent_list ≠ [] → 0 < num_envs →
  Forall (λ v, shape v = num_envs :: rest ∧ wf_array v) xs →
  ∃ y,
    batchify x agent_list (length agent_list * num_envs) = Ok y
    ∧ shape y = [length agent_list * num_envs; numel rest]
    ∧ wf_array y
    ∧ ∀ i e v, xs !! i = Some v → e < num_envs →
        block (numel rest) (i * num_envs + e) (data y)
        = block (numel rest) e (data v).
Proof.
  intros Hxs Hne Henv Hall.
  pose proof (Forall2_length _ _ _ Hxs) as Hlen.
  eexists. split_and!.
  - apply (batchify_Ok x agent_list xs num_envs rest); [done..|].
    eapply Forall_impl; [done|]. by intros ? [].
  - done.
  - unfold wf_array. cbn.
    rewrite (length_concat_data _ (num_envs :: rest)) by done.
    cbn. fold (numel rest). nia.
  - intros i e v Hi He. cbn [data].
    rewrite <-block_block by done.
    rewrite (length_block_concat _ _ _ (data v)); [done| |].
    + apply Forall_fmap. eapply Forall_impl; [done|].
      intros w [Hs Hw]. cbn. rewrite Hw, Hs. done.
    + by rewrite list_lookup_fmap, Hi.
Qed.

(** For values of any number of axes, [unbatchify] after [batchify]
    returns every agent's entries unchanged and in order, in the shape
    [(num_envs, product of the trailing dimensions)]. *)
Theorem unbatchify_batchify_any_rank x agent_list (num_envs : nat)
    (rest : list nat) :
  agent_list ≠ [] → 0 < num_envs →
  dom x = list_to_set agent_list →
  (∀ a v, x !! a = Some v → shape v = num_envs :: rest ∧ wf_array v) →
  (y ← batchify x agent_list (length agent_list * num_envs);
   unbatchify y agent_list num_envs (length agent_list))
  = Ok ((λ v, NDArray [num_envs; numel rest] (data v)) <$> x).
Proof.
  intros Hne Henv Hdom Hwf.
  destruct (dict_values_exist x agent_list) as [xs Hxs].
  { intros a Ha. apply (elem_of_dom (D:=gset string)).
    rewrite Hdom. by apply elem_of_list_to_set. }
  pose proof (Forall2_length _ _ _ Hxs) as Hlen.
  assert (Forall (λ v, shape v = num_envs :: rest ∧ wf_array v) xs) as Hall.
  { apply Forall_forall. intros v Hv.
    apply list_elem_of_lookup in Hv as [i Hi].
    destruct (Forall2_lookup_r _ _ _ _ _ Hxs Hi) as (a & _ & Ha). eauto. }
  rewrite (batchify_Ok x agent_list xs num_envs rest);
    [|done..|by eapply Forall_impl; [done|]; intros ? []].
  cbn [mbind result_bind].
  rewrite (unbatchify_Ok _ _ _ (numel rest)); [|done..].
  f_equal. cbn [data]. rewrite Hlen.
  set (g := λ v : ndarray A, NDArray [num_envs; numel rest] (data v)).
  assert ((λ i, NDArray [num_envs; numel rest]
                  (block (numel [num_envs; numel rest]) i
                     (concat (data <$> xs))))
          <$> seq 0 (length xs) = g <$> xs) as ->.
  { rewrite <-(length_fmap g xs). apply fmap_seq_lookup.
    intros i v Hi. rewrite list_lookup_fmap in Hi.
    destruct (xs !! i) as [w|] eqn:Hw; [|done]. injection Hi as <-.
    unfold g. f_equal. apply (length_block_concat _ _ _ (data w)).
    - apply Forall_fmap. eapply Forall_impl; [done|].
      intros u [Hs Hu]. cbn. rewrite Hu, Hs. cbn. fold (numel rest). lia.
    - by rewrite list_lookup_fmap, Hw. }
  apply map_eq. intros k. rewrite lookup_fmap.
  destruct (dict_of _ !! k) as [v|] eqn:Hk.
  - apply dict_of_lookup_Some in Hk.
    apply list_elem_of_lookup in Hk as [i Hi].
    apply lookup_zip_with_Some in Hi as (a & w & [= <- <-] & Ha & Hw).
    rewrite list_lookup_fmap in Hw.
    destruct (xs !! i) as [u|] eqn:Hu; [|done]. injection Hw as <-.
    by rewrite (Forall2_lookup_lr _ _ _ _ _ _ Hxs Ha Hu).
  - apply dict_of_lookup_None in Hk.
    rewrite fst_zip in Hk by (rewrite length_fmap; lia).
    assert (x !! k = None) as ->; [|done].
    apply (not_elem_of_dom (D:=gset string)).
    rewrite Hdom. by rewrite elem_of_list_to_set.
Qed.

(** [batchify] needs the listed agents' arrays to have one shape: two
    listed agents with arrays of different shapes make it raise, whatever
    the number of actors. *)
Theorem batchify_shape_mismatch x agent_list (num_actors : nat) a b v w :
  (∀ c, c ∈ agent_list → is_Some (x !! c)) →
  a ∈ agent_list → b ∈ agent_list →
  x !! a = Some v → x !! b = Some w → shape v ≠ shape w →
  batchify x agent_list num_actors = Raise ShapeMismatch.
Proof.
  intros Hall Ha Hb Hv Hw Hshape.
  destruct (dict_values_exist x agent_list Hall) as [xs Hxs].
  unfold batchify. rewrite (mapM_dict_get _ _ _ Hxs). cbn.
  assert (∀ c u, c ∈ agent_list → x !! c = Some u → u ∈ xs) as Hin.
  { intros c u Hc Hu. apply list_elem_of_lookup in Hc as [i Hi].
    destruct (Forall2_lookup_l _ _ _ _ _ Hxs Hi) as (u' & Hu' & Hcu).
    apply list_elem_of_lookup. exists i. congruence. }
  unfold stack. destruct xs as [|h xs].
  { by apply Hin in Hv. }
  rewrite decide_False; [done|]. intros Hforall.
  apply Hshape.
  rewrite (proj1 (Forall_forall _ _) Hforall v (Hin a v Ha Hv)).
  by rewrite (proj1 (Forall_forall _ _) Hforall w (Hin b w Hb Hw)).
Qed.

(** [batchify] does not compare [num_actors] with the number of agents
    and environments: on arrays of one shape it succeeds for every
    non-zero [num_actors] that divides the number of entries, with rows
    of as many entries as it takes, and raises for every other one. *)
Theorem batchify_num_actors x agent_list xs (s : list nat)
    (num_actors : nat) :
  Forall2 (λ a v, x !! a = Some v) agent_list xs →
  agent_list ≠ [] → Forall (λ v, shape v = s) xs →
  let entries := length agent_list * numel s in
  (num_actors ≠ 0 → (num_actors | entries) →
   batchify x agent_list num_actors
   = Ok (NDArray [num_actors; entries `div` num_actors]
           (concat (data <$> xs))))
  ∧ (num_actors = 0 ∨ ¬ (num_actors | entries) →
     ∃ e, batchify x agent_list num_actors = Raise e).
Proof.
  intros Hxs Hne Hall entries.
  pose proof (Forall2_length _ _ _ Hxs) as Hlen.
  assert (batchify x agent_list num_actors
          = reshape (NDArray (length agent_list :: s)
                       (concat (data <$> xs))) [Dim num_actors; Infer])
    as ->.
  { unfold batchify. rewrite (mapM_dict_get _ _ _ Hxs). cbn.
    rewrite (stack_Ok _ s); [by rewrite Hlen| |done].
    by destruct xs, agent_list. }
  unfold reshape. cbn. fold (numel s). fold entries.
  rewrite Nat.mul_1_r. split.
  - intros Hk Hdiv. rewrite decide_False by done.
    rewrite decide_True by (by apply Nat.Lcm0.mod_divide). done.
  - intros [->|Hdiv]; [by eexists|].
    case_decide; [by eexists|].
    rewrite decide_False; [by eexists|].
    by rewrite Nat.Lcm0.mod_divide.
Qed.

Lemma unbatchify_Ok_any_rank y agent_list (num_envs : nat)
    (rest : list nat) :
  agent_list ≠ [] → 0 < num_envs →
  shape y = (length agent_list * num_envs) :: rest →
  unbatchify y agent_list num_envs (length agent_list)
  = Ok (dict_of (zip agent_list
          ((λ i, NDArray [num_envs; numel rest]
                   (block (num_envs * numel rest) i (data y)))
           <$> seq 0 (length agent_list)))).
Proof.
  intros Hne Henv Hshape. unfold unbatchify.
  rewrite (reshape_agents _ (length agent_list) num_envs (numel rest));
    [|rewrite Hshape; cbn; fold (numel rest); lia
     |by destruct agent_list|lia].
  cbn. erewrite mapM_Ok_fmap; [done|].
  intros i Hi. apply elem_of_seq in Hi. unfold getitem. cbn.
  destruct (length agent_list) as [|n] eqn:Hn; [lia|].
  replace (i `min` n) with i by lia. rewrite Nat.mul_1_r. done.
Qed.

Lemma dict_of_zip_lookup {B} (agent_list : list string) (f : nat → ndarray B)
    (i : nat) (a : string) :
  NoDup agent_list → agent_list !! i = Some a →
  dict_of (zip agent_list (f <$> seq 0 (length agent_list))) !! a
  = Some (f i).
Proof.
  intros Hnd Ha. apply dict_of_lookup_NoDup.
  - by rewrite fst_zip by (rewrite length_fmap, length_seq; lia).
  - apply list_elem_of_lookup. exists i.
    apply lookup_zip_with_Some. eexists _, _. split_and!; [done..|].
    rewrite list_lookup_fmap.
    rewrite lookup_seq_lt by (by eapply lookup_lt_Some). done.
Qed.

(** [unbatchify] hands the agents their rows in the order of the agent
    list: with [num_envs] rows per agent, the [i]-th listed agent gets
    rows [i * num_envs] onwards, in the shape
    [(num_envs, product of the trailing dimensions)], and the result has
    the listed agents as its keys. *)
Theorem unbatchify_rows y agent_list (num_envs : nat) (rest : list nat) :
  NoDup agent_list → agent_list ≠ [] → 0 < num_envs →
  shape y = (length agent_list * num_envs) :: rest →
  ∃ d,
    unbatchify y agent_list num_envs (length agent_list) = Ok d
    ∧ dom d = list_to_set agent_list
    ∧ ∀ i a, agent_list !! i = Some a →
        d !! a = Some (NDArray [num_envs; numel rest]
                         (block (num_envs * numel rest) i (data y))).
Proof.
  intros Hnd Hne Henv Hshape. eexists. split_and!.
  - by apply unbatchify_Ok_any_rank.
  - unfold dict_of. rewrite dom_list_to_map_L, fmap_reverse.
    rewrite fst_zip by (rewrite length_fmap, length_seq; lia).
    apply set_eq. intros k. rewrite !elem_of_list_to_set.
    by rewrite elem_of_reverse.
  - intros i a Ha.
    by rewrite (dict_of_zip_lookup agent_list
                  (λ i, NDArray [num_envs; numel rest]
                          (block (num_envs * numel rest) i (data y)))
                  i a).
Qed.

(** The actions of one collection step: [unbatchify] and the flattening
    that follows it give the [i]-th listed agent the entries
    [i * num_envs] to [(i + 1) * num_envs - 1] of the flat action array,
    the places [batchify] gave that agent's observations. *)
Theorem env_act_blocks y agent_list (num_envs : nat) :
  NoDup agent_list → agent_list ≠ [] → 0 < num_envs →
  shape y = [length agent_list * num_envs] →
  ∃ d,
    unbatchify y agent_list num_envs (length agent_list) = Ok d
    ∧ ∀ i a, agent_list !! i = Some a →
        (flatten <$> d) !! a
        = Some (NDArray [num_envs]
                  (take num_envs (drop (i * num_envs) (data y)))).
Proof.
  intros Hnd Hne Henv Hshape. eexists. split.
  - by apply (unbatchify_Ok_any_rank y agent_list num_envs []).
  - intros i a Ha. rewrite lookup_fmap.
    rewrite (dict_of_zip_lookup agent_list
               (λ i, NDArray [num_envs; numel []]
                       (block (num_envs * numel []) i (data y)))
               i a) by done.
    cbn. unfold flatten, block. cbn. by rewrite !Nat.mul_1_r.
Qed.

End batch_adapter_layout.

(** ** The advantage estimator in exact arithmetic *)

Lemma scan_reverse_app {C X Y} (f : C → X → C * Y) (init : C)
    (l1 l2 : list X) :
  scan_reverse f init (l1 ++ l2)
  = let r2 := scan_reverse f init l2 in
    let r1 := scan_reverse f r2.1 l1 in
    (r1.1, r1.2 ++ r2.2).
Proof.
  induction l1 as [|x l1 IH]; cbn.
  - by destruct (scan_reverse f init l2).
  - rewrite IH. cbn.
    destruct (scan_reverse f (scan_reverse f init l2).1 l1) as [c ys].
    cbn. by destruct (f c x).
Qed.

Lemma length_scan_reverse {C X Y} (f : C → X → C * Y) (init : C)
    (xs : list X) :
  length (scan_reverse f init xs).2 = length xs.
Proof.
  induction xs as [|x xs IH]; [done|]. cbn.
  destruct (scan_reverse f init xs) as [c ys]. destruct (f c x).
  cbn in *. by rewrite IH.
Qed.

Lemma take_S_app_cons {A} (l k : list A) (a : A) :
  take (Datatypes.S (length l)) (l ++ a :: k) = l ++ [a].
Proof. induction l as [|b l IH]; cbn; [by rewrite take_0|by f_equal]. Qed.

Section gae_exact.
Context {Act O I : Type}.
Variables GAMMA GAE_LAMBDA : Q.
Implicit Types (traj_batch : list (Transition bool Act Q O I)).
Implicit Types (transition : Transition bool Act Q O I) (last_val : Q).

Lemma calculate_gae_lookup traj_batch last_val t transition :
  traj_batch !! t = Some transition →
  let r := _calculate_gae GAMMA GAE_LAMBDA traj_batch last_val in
  let advantage :=
    advantage_of GAMMA GAE_LAMBDA transition
      (default last_val (value <$> traj_batch !! Datatypes.S t))
      (default 0%Q (r.1 !! Datatypes.S t)) in
  r.1 !! t = Some advantage
  ∧ r.2 !! t = Some (advantage + value transition)%Q.
Proof.
  intros Ht. unfold _calculate_gae.
  pose proof (scan_reverse_gae_step GAMMA GAE_LAMBDA traj_batch
                (zeros_like last_val) last_val t transition Ht) as Hstep.
  destruct (scan_reverse _ _ _) as [c advantages]. cbn in *.
  split; [done|].
  by rewrite lookup_zip_with, Hstep, list_lookup_fmap, Ht.
Qed.

(** At a step that ends an episode the advantage is the reward minus the
    value and the target is the reward: neither the next value nor the
    next advantage enters it. *)
Theorem gae_terminal_step traj_batch last_val t transition :
  traj_batch !! t = Some transition → done transition = true →
  ∃ advantage target,
    (_calculate_gae GAMMA GAE_LAMBDA traj_batch last_val).1 !! t
    = Some advantage
    ∧ (_calculate_gae GAMMA GAE_LAMBDA traj_batch last_val).2 !! t
      = Some target
    ∧ (advantage == reward transition - value transition)%Q
    ∧ (target == reward transition)%Q.
Proof.
  intros Ht Hdone.
  destruct (calculate_gae_lookup traj_batch last_val t transition Ht)
    as [Hadv Htgt].
  eexists _, _. split_and!; [exact Hadv|exact Htgt|..];
    unfold advantage_of, delta_of;
    cbn [arr_add arr_sub arr_mul arr_smul fmul one_minus Q_arith];
    rewrite Hdone; ring.
Qed.

(** With [GAE_LAMBDA = 0] the advantage is the one-step residual
    [reward + GAMMA * next_value * (1 - done) - value], where the next
    value is the value of the next step, or the bootstrap value at the
    last step. *)
Theorem gae_lambda_zero traj_batch last_val t transition :
  (GAE_LAMBDA == 0)%Q → traj_batch !! t = Some transition →
  ∃ advantage,
    (_calculate_gae GAMMA GAE_LAMBDA traj_batch last_val).1 !! t
    = Some advantage
    ∧ (advantage
       == reward transition
          + GAMMA * default last_val (value <$> traj_batch !! Datatypes.S t)
            * (1 - (if done transition then 1 else 0))
          - value transition)%Q.
Proof.
  intros Hlambda Ht.
  destruct (calculate_gae_lookup traj_batch last_val t transition Ht)
    as [Hadv _].
  eexists. split; [exact Hadv|].
  unfold advantage_of, delta_of.
  cbn [arr_add arr_sub arr_mul arr_smul fmul one_minus Q_arith].
  set (next := default 0%Q _). clearbody next. rewrite Hlambda. ring.
Qed.

Lemma scan_reverse_gae_proper traj_batch (gae1 gae2 next_value : Q) :
  (gae1 == gae2)%Q →
  let r1 := scan_reverse (_get_advantages GAMMA GAE_LAMBDA)
              (gae1, next_value) traj_batch in
  let r2 := scan_reverse (_get_advantages GAMMA GAE_LAMBDA)
              (gae2, next_value) traj_batch in
  Forall2 Qeq r1.2 r2.2 ∧ (r1.1.1 == r2.1.1)%Q ∧ r1.1.2 = r2.1.2.
Proof.
  intros Hgae. induction traj_batch as [|transition l IH]; [by cbn|].
  rewrite !scan_reverse_gae_cons. cbn zeta. cbn [fst snd].
  destruct IH as (Hys & Hc1 & Hc2). rewrite Hc2.
  assert (advantage_of GAMMA GAE_LAMBDA transition
            (scan_reverse (_get_advantages GAMMA GAE_LAMBDA)
               (gae2, next_value) l).1.2
            (scan_reverse (_get_advantages GAMMA GAE_LAMBDA)
               (gae1, next_value) l).1.1
          == advantage_of GAMMA GAE_LAMBDA transition
               (scan_reverse (_get_advantages GAMMA GAE_LAMBDA)
                  (gae2, next_value) l).1.2
               (scan_reverse (_get_advantages GAMMA GAE_LAMBDA)
                  (gae2, next_value) l).1.1)%Q as Hadv.
  { unfold advantage_of.
    cbn [arr_add arr_sub arr_mul arr_smul fmul one_minus Q_arith].
    by rewrite Hc1. }
  split_and!; [by constructor|done..].
Qed.

(** Advantages do not leak across the end of an episode: up to and
    including a step that ends an episode, the advantages are the same
    whatever steps follow and whatever the bootstrap value. *)
Theorem gae_no_leak (before after1 after2 : list (Transition bool Act Q O I))
    transition (last_val1 last_val2 : Q) :
  done transition = true →
  let n := Datatypes.S (length before) in
  Forall2 Qeq
    (take n (_calculate_gae GAMMA GAE_LAMBDA
               (before ++ transition :: after1) last_val1).1)
    (take n (_calculate_gae GAMMA GAE_LAMBDA
               (before ++ transition :: after2) last_val2).1).
Proof.
  intros Hdone n. unfold _calculate_gae.
  rewrite !scan_reverse_app. cbn zeta.
  rewrite !scan_reverse_gae_cons. cbn zeta. cbn [fst snd].
  set (a1 := advantage_of _ _ transition _ _).
  set (a2 := advantage_of _ _ transition _ _).
  assert (a1 == a2)%Q as Ha.
  { unfold a1, a2, advantage_of, delta_of.
    cbn [arr_add arr_sub arr_mul arr_smul fmul one_minus Q_arith].
    rewrite Hdone. ring. }
  destruct (scan_reverse_gae_proper before a1 a2 (value transition) Ha)
    as (Hys & _).
  destruct (scan_reverse _ (a1, _) before) as [c1 ys1] eqn:H1.
  destruct (scan_reverse _ (a2, _) before) as [c2 ys2] eqn:H2.
  cbn [fst snd] in *.
  assert (length ys1 = length before) as Hl1.
  { by rewrite <-(length_scan_reverse (_get_advantages GAMMA GAE_LAMBDA)
                    (a1, value transition) before), H1. }
  assert (length ys2 = length before) as Hl2.
  { by rewrite <-(length_scan_reverse (_get_advantages GAMMA GAE_LAMBDA)
                    (a2, value transition) before), H2. }
  unfold n. rewrite <-Hl1 at 1. rewrite take_S_app_cons.
  rewrite <-Hl2. rewrite take_S_app_cons.
  apply Forall2_app; [done|]. by constructor.
Qed.

End gae_exact.

(** ** The loss blocks: what clipping does *)

(** For a clipping width [eps >= 0]: with an advantage that is not
    negative the actor term is the advantage times the ratio capped at
    [1 + eps], and with an advantage that is not positive it is the
    advantage times the ratio floored at [1 - eps]. So the term stops
    depending on the ratio once the ratio has moved past the clipping
    range in the direction the advantage favours, and only then. *)
Theorem actor_term_cases (eps ratio advantage : Q) :
  (0 <= eps)%Q →
  ((0 <= advantage)%Q →
   (loss_actor_terms eps ratio advantage
    == - (Qmin ratio (1 + eps) * advantage))%Q)
  ∧ ((advantage <= 0)%Q →
     (loss_actor_terms eps ratio advantage
      == - (Qmax ratio (1 - eps) * advantage))%Q).
Proof.
  intros He. unfold loss_actor_terms.
  cbn [arr_neg arr_minimum arr_mul arr_clip fsub fadd fone Q_arith].
  unfold Qclip.
  split; intros Ha;
    destruct (Q.max_spec ratio (1 - eps)) as [[H1 H1']|[H1 H1']];
    rewrite H1';
    destruct (Q.min_spec ratio (1 + eps)) as [[H2 H2']|[H2 H2']];
    rewrite ?H2';
    destruct (Q.min_spec (1 - eps) (1 + eps)) as [[H3 H3']|[H3 H3']];
    rewrite ?H3';
    match goal with
    | |- (- Qmin ?a ?b == _)%Q =>
        destruct (Q.min_spec a b) as [[H4 H4']|[H4 H4']]; rewrite H4'
    end;
    nra.
Qed.

Lemma value_loss_of_zip (eps : Q) (value old_value targets : list Q) :
  length old_value = length value → length targets = length value →
  value_loss_of eps value old_value targets
  = [((1 # 2)
      * Qmean
          (zip_with Qmax
             ((λ x, x * x) <$> zip_with Qminus value targets)
             ((λ x, x * x) <$>
              zip_with Qminus
                (zip_with Qplus old_value
                   ((λ a, Qclip a (- eps) eps)
                    <$> zip_with Qminus value old_value))
                targets)))%Q].
Proof.
  intros Ho Ht. unfold value_loss_of, value_pred_clipped_of.
  cbn [arr_smul arr_mean arr_maximum arr_square arr_sub arr_add arr_clip
       fneg fhalf Qlist_arith].
  rewrite (broadcast2_zip_with Qminus value old_value) by lia.
  rewrite (broadcast2_zip_with Qplus old_value)
    by (rewrite length_fmap, length_zip_with; lia).
  rewrite (broadcast2_zip_with Qminus value targets) by lia.
  rewrite (broadcast2_zip_with Qminus (zip_with _ _ _) targets)
    by (rewrite !length_zip_with, length_fmap, length_zip_with; lia).
  rewrite (broadcast2_zip_with Qmax)
    by (rewrite !length_fmap, !length_zip_with, length_fmap,
          length_zip_with; lia).
  done.
Qed.

Lemma Qsum_mono (l1 l2 : list Q) :
  Forall2 Qle l1 l2 → (Qsum l1 <= Qsum l2)%Q.
Proof.
  induction 1 as [|a b l1 l2 Hab _ IH]; [apply Qle_refl|].
  unfold Qsum in *. cbn [foldr]. lra.
Qed.

Lemma Qinv_of_nat_nonneg (n : nat) : (0 <= / inject_Z (Z.of_nat n))%Q.
Proof.
  apply Qinv_le_0_compat. unfold Qle. cbn. lia.
Qed.

Lemma Qmean_mono (l1 l2 : list Q) :
  Forall2 Qle l1 l2 → (Qmean l1 <= Qmean l2)%Q.
Proof.
  intros H. unfold Qmean. rewrite (Forall2_length _ _ _ H).
  apply Qmult_le_compat_r; [by apply Qsum_mono|].
  apply Qinv_of_nat_nonneg.
Qed.

Lemma Qmean_nonneg (l : list Q) :
  Forall (λ x, 0 <= x)%Q l → (0 <= Qmean l)%Q.
Proof.
  intros H.
  assert (0 <= Qsum l)%Q as Hsum.
  { induction H as [|a l Ha _ IH]; [apply Qle_refl|].
    unfold Qsum in *. cbn [foldr]. lra. }
  apply Qmult_le_0_compat; [done|]. apply Qinv_of_nat_nonneg.
Qed.

Lemma Forall2_Qle_max_l (l1 l2 : list Q) :
  length l2 = length l1 → Forall2 Qle l1 (zip_with Qmax l1 l2).
Proof.
  revert l2. induction l1 as [|a l1 IH]; intros [|b l2] Hlen; try done.
  cbn. constructor; [apply Q.le_max_l|]. apply IH. by injection Hlen.
Qed.

Lemma Qclip_inside (x lo hi : Q) :
  (lo <= x)%Q → (x <= hi)%Q → (Qclip x lo hi == x)%Q.
Proof.
  intros Hlo Hhi. unfold Qclip.
  rewrite (Q.max_l x lo) by done. by rewrite Q.min_l.
Qed.

Lemma value_terms_unclipped (eps : Q) (value old_value targets : list Q) :
  length old_value = length value → length targets = length value →
  Forall2 (λ v o, Qabs (v - o) <= eps)%Q value old_value →
  Forall2 Qeq
    (zip_with Qmax
       ((λ x, x * x)%Q <$> zip_with Qminus value targets)
       ((λ x, x * x)%Q <$>
        zip_with Qminus
          (zip_with Qplus old_value
             ((λ a, Qclip a (- eps) eps) <$> zip_with Qminus value old_value))
          targets))
    ((λ x, x * x)%Q <$> zip_with Qminus value targets).
Proof.
  intros Ho Ht Hclose. revert targets Ht Ho.
  induction Hclose as [|v o value old_value Hvo _ IH];
    intros [|t targets] Ht Ho; try done.
  cbn. constructor.
  - apply Qabs_Qle_condition in Hvo as [Hlo Hhi].
    rewrite (Qclip_inside (v - o) (- eps) eps) by done.
    assert ((o + (v - o) - t) * (o + (v - o) - t) == (v - t) * (v - t))%Q
      as -> by ring.
    apply Q.max_id.
  - apply IH; [by injection Ht|by injection Ho].
Qed.

(** Clipping can only raise the value loss: on arrays of one length the
    loss is at least half the mean squared error of the re-evaluated
    values, and so never negative, whatever the clipping width and the
    stored values. *)
Theorem value_loss_at_least_mse (eps : Q) (value old_value targets : list Q) :
  length old_value = length value → length targets = length value →
  ∃ loss,
    value_loss_of eps value old_value targets = [loss]
    ∧ ((1 # 2) * Qmean ((λ x, x * x) <$> zip_with Qminus value targets)
       <= loss)%Q
    ∧ (0 <= loss)%Q.
Proof.
  intros Ho Ht. eexists. split; [by apply value_loss_of_zip|].
  assert (0 <= Qmean ((λ x, x * x)%Q <$> zip_with Qminus value targets))%Q
    as Hmse.
  { apply Qmean_nonneg, Forall_fmap, Forall_forall. intros x _. cbn. nra. }
  set (clipped := zip_with Qmax _ _).
  assert (Qmean ((λ x, x * x)%Q <$> zip_with Qminus value targets)
          <= Qmean clipped)%Q as Hle.
  { apply Qmean_mono, Forall2_Qle_max_l.
    rewrite !length_fmap, !length_zip_with, length_fmap, length_zip_with.
    lia. }
  split; lra.
Qed.

(** Inside the trust region the clipping does nothing: when every
    re-evaluated value is within [eps] of the stored one, the value loss
    is half the mean squared error of the re-evaluated values. *)
Theorem value_loss_trust_region (eps : Q) (value old_value targets : list Q) :
  length targets = length value →
  Forall2 (λ v o, Qabs (v - o) <= eps)%Q value old_value →
  ∃ loss,
    value_loss_of eps value old_value targets = [loss]
    ∧ (loss
       == (1 # 2) * Qmean ((λ x, x * x) <$> zip_with Qminus value targets))%Q.
Proof.
  intros Ht Hclose.
  pose proof (Forall2_length _ _ _ Hclose) as Ho. symmetry in Ho.
  eexists. split; [by apply value_loss_of_zip|].
  apply Qmult_comp; [reflexivity|].
  by apply Qmean_proper, value_terms_unclipped.
Qed.

(** ** The learning-rate schedule *)

Lemma Qnat_le (a b : nat) :
  a ≤ b → (inject_Z (Z.of_nat a) <= inject_Z (Z.of_nat b))%Q.
Proof. intros Hab. rewrite <-Zle_Qle. lia. Qed.

Lemma Qnat_S (a : nat) :
  (inject_Z (Z.of_nat (Datatypes.S a)) == inject_Z (Z.of_nat a) + 1)%Q.
Proof. rewrite Nat2Z.inj_succ. unfold Z.succ. by rewrite inject_Z_plus. Qed.

Lemma Qnat_pos (a : nat) : 0 < a → (0 < inject_Z (Z.of_nat a))%Q.
Proof. intros Ha. change 0%Q with (inject_Z 0). rewrite <-Zlt_Qlt. lia. Qed.

(** The learning rate falls by [LR / NUM_UPDATES] from one update to the
    next: over the [NUM_MINIBATCHES * UPDATE_EPOCHS] optimiser steps of an
    update the step counter moves to the next stair. *)
Theorem linear_schedule_drop (config : Config Q) (count : nat) :
  0 < NUM_MINIBATCHES config → 0 < UPDATE_EPOCHS config →
  0 < NUM_UPDATES config →
  (linear_schedule config
     (count + NUM_MINIBATCHES config * UPDATE_EPOCHS config)
   == linear_schedule config count
      - LR config / inject_Z (Z.of_nat (NUM_UPDATES config)))%Q.
Proof.
  intros Hm He Hu. unfold linear_schedule. cbn zeta.
  set (k := NUM_MINIBATCHES config * UPDATE_EPOCHS config).
  replace (count + k) with (count + 1 * k) by lia.
  rewrite Nat.div_add by (unfold k; nia).
  rewrite Nat.add_1_r, Qnat_S.
  pose proof (Qnat_pos _ Hu) as Hpos.
  field. lra.
Qed.

(** While training runs, that is for the step counts below
    [NUM_UPDATES * NUM_MINIBATCHES * UPDATE_EPOCHS], the learning rate
    stays between [LR / NUM_UPDATES] and [LR]: it starts at [LR] and never
    reaches zero. *)
Theorem linear_schedule_range (config : Config Q) (count : nat) :
  0 < NUM_MINIBATCHES config → 0 < UPDATE_EPOCHS config →
  (0 <= LR config)%Q →
  count < NUM_UPDATES config
          * (NUM_MINIBATCHES config * UPDATE_EPOCHS config) →
  (LR config / inject_Z (Z.of_nat (NUM_UPDATES config))
   <= linear_schedule config count)%Q
  ∧ (linear_schedule config count <= LR config)%Q
  ∧ (count < NUM_MINIBATCHES config * UPDATE_EPOCHS config →
     (linear_schedule config count == LR config)%Q).
Proof.
  intros Hm He Hlr Hcount. unfold linear_schedule. cbn zeta.
  set (k := NUM_MINIBATCHES config * UPDATE_EPOCHS config) in *.
  assert (0 < NUM_UPDATES config) as Hu by nia.
  assert (Datatypes.S (count `div` k) ≤ NUM_UPDATES config) as Hdiv.
  { apply Nat.Div0.div_lt_upper_bound. lia. }
  apply Qnat_le in Hdiv. rewrite Qnat_S in Hdiv.
  pose proof (Qnat_pos _ Hu) as Hpos.
  pose proof (Qnat_le 0 (count `div` k) ltac:(lia)) as Hnn.
  change (inject_Z (Z.of_nat 0)) with 0%Q in Hnn.
  set (u := inject_Z (Z.of_nat (count `div` k))) in *.
  set (n := inject_Z (Z.of_nat (NUM_UPDATES config))) in *.
  assert (1 - u / n == (n - u) / n)%Q as Hfrac by (field; lra).
  split_and!.
  - rewrite Hfrac. unfold Qdiv. rewrite Qmult_assoc.
    apply Qmult_le_compat_r; [nra|].
    apply Qlt_le_weak, Qinv_lt_0_compat. done.
  - assert (0 <= u / n)%Q as Hq.
    { apply Qle_shift_div_l; [done|]. lra. }
    nra.
  - intros Hfirst. unfold u. rewrite Nat.div_small by done.
    change (inject_Z (Z.of_nat 0)) with 0%Q. field. lra.
Qed.

(** The learning rate never rises with the step count when [LR] is not
    negative. *)
Theorem linear_schedule_antitone (config : Config Q) (count1 count2 : nat) :
  0 < NUM_MINIBATCHES config → 0 < UPDATE_EPOCHS config →
  0 < NUM_UPDATES config → (0 <= LR config)%Q →
  count1 ≤ count2 →
  (linear_schedule config count2 <= linear_schedule config count1)%Q.
Proof.
  intros Hm He Hu Hlr Hcount. unfold linear_schedule. cbn zeta.
  set (k := NUM_MINIBATCHES config * UPDATE_EPOCHS config).
  assert (count1 `div` k ≤ count2 `div` k) as Hdiv
    by (by apply Nat.Div0.div_le_mono).
  apply Qnat_le in Hdiv.
  pose proof (Qnat_pos _ Hu) as Hpos.
  set (u1 := inject_Z (Z.of_nat (count1 `div` k))) in *.
  set (u2 := inject_Z (Z.of_nat (count2 `div` k))) in *.
  set (n := inject_Z (Z.of_nat (NUM_UPDATES config))) in *.
  assert (u1 / n <= u2 / n)%Q as Hq.
  { apply Qmult_le_compat_r; [done|].
    apply Qlt_le_weak, Qinv_lt_0_compat. done. }
  nra.
Qed.

(** The schedule is not clamped: an optimiser that keeps stepping after
    the planned [NUM_UPDATES] updates gets the learning rate zero during
    the next update and a negative one from then on. *)
Theorem linear_schedule_not_clamped (config : Config Q) (count : nat) :
  0 < NUM_MINIBATCHES config → 0 < UPDATE_EPOCHS config →
  0 < NUM_UPDATES config → (0 < LR config)%Q →
  let k := NUM_MINIBATCHES config * UPDATE_EPOCHS config in
  (NUM_UPDATES config * k ≤ count < (NUM_UPDATES config + 1) * k →
   (linear_schedule config count == 0)%Q)
  ∧ ((NUM_UPDATES config + 1) * k ≤ count →
     (linear_schedule config count < 0)%Q).
Proof.
  intros Hm He Hu Hlr k. unfold linear_schedule. cbn zeta. fold k.
  pose proof (Qnat_pos _ Hu) as Hpos.
  split.
  - intros [Hlo Hhi].
    assert (count `div` k = NUM_UPDATES config) as ->.
    { symmetry.
      apply (Nat.div_unique _ _ _ (count - NUM_UPDATES config * k)); lia. }
    field. lra.
  - intros Hlo.
    assert (Datatypes.S (NUM_UPDATES config) ≤ count `div` k) as Hdiv.
    { apply Nat.div_le_lower_bound; [unfold k; nia|lia]. }
    apply Qnat_le in Hdiv. rewrite Qnat_S in Hdiv.
    set (u := inject_Z (Z.of_nat (count `div` k))) in *.
    set (n := inject_Z (Z.of_nat (NUM_UPDATES config))) in *.
    assert (1 - u / n == (n - u) / n)%Q as -> by (field; lra).
    unfold Qdiv. rewrite Qmult_assoc.
    pose proof (Qinv_lt_0_compat n Hpos) as Hinv.
    set (i := (/ n)%Q) in *.
    assert (0 < LR config * i)%Q as Hp by (by apply Qmult_lt_0_compat).
    assert (LR config * (n - u) * i == LR config * i * (n - u))%Q as ->
      by ring.
    nra.
Qed.

(** ** Rolling out one episode *)

Section rollout_facts.
Context {S F Ac Inf Key EnvState Params Pi TrainState Tx Grads : Type}.
Context `{!ArrayLib (ndarray F)}.
Variable PRNGKey : nat → Key.
Variable env : Env (F:=F) (Ac:=Ac) (Inf:=Inf) (Key:=Key) (EnvState:=EnvState).
Variable network :
  Network (F:=F) (Ac:=Ac) (Key:=Key) (Params:=Params) (Pi:=Pi).
Variable jax :
  Engine (S:=S) (F:=F) (Key:=Key) (Params:=Params) (TrainState:=TrainState)
    (Tx:=Tx) (Grads:=Grads).
Implicit Types (carry : Key * gmap string (ndarray F) * EnvState).
Implicit Types (state_seq states rest : list EnvState).

Lemma dict_get_fmap {A B} (f : ndarray A → ndarray B)
    (m : gmap string (ndarray A)) (k : string) :
  dict_get (f <$> m) k
  = match m !! k with Some v => Ok (f v) | None => Raise (KeyError k) end.
Proof. unfold dict_get. rewrite lookup_fmap. by destruct (m !! k). Qed.

Lemma rollout_loop_S fuel network_params carry state_seq :
  rollout_loop env network jax (Datatypes.S fuel) network_params carry
    state_seq
  = match rollout_iteration env network jax network_params carry with
    | Raise e => Some (Raise e)
    | Ok (key, obs, state, done) =>
        if done then Some (Ok (state_seq ++ [state]))
        else rollout_loop env network jax fuel network_params
               (key, obs, state) (state_seq ++ [state])
    end.
Proof. done. Qed.

Lemma rollout_loop_sound fuel network_params carry state_seq states :
  rollout_loop env network jax fuel network_params carry state_seq
  = Some (Ok states) →
  ∃ rest, states = state_seq ++ rest
          ∧ episode_from env network jax network_params carry rest.
Proof.
  revert carry state_seq.
  induction fuel as [|fuel IH]; intros carry state_seq; [done|]. cbn.
  destruct (rollout_iteration _ _ _ _ carry)
    as [[[[key obs] state] [|]]|e] eqn:Hiter; [| |done].
  - intros [= <-]. exists [state]. split; [done|].
    by eapply episode_end.
  - intros Hloop. apply IH in Hloop as (rest & -> & Hrest).
    exists (state :: rest). split; [by rewrite <-app_assoc|].
    by eapply episode_step.
Qed.

Lemma rollout_loop_complete network_params carry rest :
  episode_from env network jax network_params carry rest →
  ∀ fuel state_seq, length rest ≤ fuel →
    rollout_loop env network jax fuel network_params carry state_seq
    = Some (Ok (state_seq ++ rest)).
Proof.
  induction 1 as [carry key obs state Hiter
                 |carry key obs state states Hiter _ IH];
    intros [|fuel] state_seq Hfuel; cbn in Hfuel; try lia;
    cbn; rewrite Hiter; [done|].
  rewrite IH by lia. by rewrite <-app_assoc.
Qed.

Lemma episode_from_nonempty network_params carry rest :
  episode_from env network jax network_params carry rest → 0 < length rest.
Proof. destruct 1; cbn; lia. Qed.

(** What [get_rollout] returns: the state the reset gave, followed by the
    states of the loop's passes up to and including the first pass in
    which the environment reports the end of the episode. The loop body
    runs at least once, so there are at least two states. *)
Theorem get_rollout_episode (train_state : TrainState) states :
  (∃ fuel,
     get_rollout PRNGKey env network jax fuel train_state = Some (Ok states))
  ↔ (∃ key key_r key_a rest,
       random_split_n jax (PRNGKey 0) 3 = [key; key_r; key_a]
       ∧ states = (env_reset env key_r).2 :: rest
       ∧ 0 < length rest
       ∧ episode_from env network jax (params jax train_state)
           (key, (env_reset env key_r).1, (env_reset env key_r).2) rest).
Proof.
  unfold get_rollout. split.
  - intros [fuel Hrun].
    destruct (random_split_n jax (PRNGKey 0) 3)
      as [|key [|key_r [|key_a [|]]]]; try done.
    destruct (env_reset env key_r) as [obs state] eqn:Hreset.
    apply rollout_loop_sound in Hrun as (rest & -> & Hrest).
    exists key, key_r, key_a, rest. rewrite Hreset. cbn.
    split_and!; [done..| |done]. by eapply episode_from_nonempty.
  - intros (key & key_r & key_a & rest & -> & -> & _ & Hrest).
    exists (length rest).
    destruct (env_reset env key_r) as [obs state]. cbn in *.
    by rewrite (rollout_loop_complete _ _ _ Hrest).
Qed.

(** [get_rollout] reads the observations of ["agent_0"] and ["agent_1"] by
    name: when the reset gives no observation under one of these names,
    the first pass through the loop raises a [KeyError] for it. *)
Theorem get_rollout_agent_names (fuel : nat) (train_state : TrainState)
    key key_r key_a :
  random_split_n jax (PRNGKey 0) 3 = [key; key_r; key_a] →
  length (random_split_n jax key 4) = 4 →
  let obs := (env_reset env key_r).1 in
  (obs !! "agent_0" = None →
   get_rollout PRNGKey env network jax (Datatypes.S fuel) train_state
   = Some (Raise (KeyError "agent_0")))
  ∧ (is_Some (obs !! "agent_0") → obs !! "agent_1" = None →
     get_rollout PRNGKey env network jax (Datatypes.S fuel) train_state
     = Some (Raise (KeyError "agent_1"))).
Proof.
  intros Hsplit Hlen obs. unfold get_rollout. rewrite Hsplit.
  subst obs. destruct (env_reset env key_r) as [obs state]. cbn [fst].
  destruct (random_split_n jax key 4) as [|k0 [|k1 [|k2 [|k3 [|]]]]] eqn:Hk;
    try done.
  split.
  - intros H0. cbn [rollout_loop]. unfold rollout_iteration. rewrite Hk.
    by rewrite (dict_get_fmap flatten obs "agent_0"), H0.
  - intros [v0 H0] H1. cbn [rollout_loop]. unfold rollout_iteration.
    rewrite Hk. rewrite (dict_get_fmap flatten obs "agent_0"), H0.
    cbn [mbind result_bind].
    destruct (network_apply network _ _).
    by rewrite (dict_get_fmap flatten obs "agent_1"), H1.
Qed.

Lemma rollout_iteration_Ok (measure : EnvState → nat) network_params
    key obs state :
  (∀ key n, length (random_split_n jax key n) = n) →
  (∀ key state actions,
     let r := env_step env key state actions in
     is_Some (r.1.1.1.1 !! "agent_0") ∧ is_Some (r.1.1.1.1 !! "agent_1")
     ∧ ∃ d b, r.1.2 !! "__all__" = Some d ∧ data d = [b]
              ∧ (b = false → measure r.1.1.1.2 < measure state)) →
  is_Some (obs !! "agent_0") → is_Some (obs !! "agent_1") →
  ∃ key' obs' state' b,
    rollout_iteration env network jax network_params (key, obs, state)
    = Ok (key', obs', state', b)
    ∧ is_Some (obs' !! "agent_0") ∧ is_Some (obs' !! "agent_1")
    ∧ (b = false → measure state' < measure state).
Proof.
  intros Hsplit Hstep [v0 H0] [v1 H1]. unfold rollout_iteration.
  pose proof (Hsplit key 4) as Hlen.
  destruct (random_split_n jax key 4) as [|k0 [|k1 [|k2 [|k3 [|]]]]];
    try done.
  rewrite (dict_get_fmap flatten obs "agent_0"), H0. cbn [mbind result_bind].
  destruct (network_apply network _ _) as [pi_0 ?].
  rewrite (dict_get_fmap flatten obs "agent_1"), H1. cbn [mbind result_bind].
  destruct (network_apply network _ _) as [pi_1 ?].
  match goal with
  | |- context [env_step env k3 state ?a] =>
      specialize (Hstep k3 state a);
      destruct (env_step env k3 state a)
        as [[[[obs' state'] reward] done] info]
  end.
  cbn in Hstep. destruct Hstep as (Ho0 & Ho1 & d & b & Hd & Hb & Hm).
  unfold dict_get. rewrite Hd. cbn. unfold array_truth. rewrite Hb. cbn.
  by exists k0, obs', state', b.
Qed.

Lemma rollout_loop_terminates (measure : EnvState → nat) network_params :
  (∀ key n, length (random_split_n jax key n) = n) →
  (∀ key state actions,
     let r := env_step env key state actions in
     is_Some (r.1.1.1.1 !! "agent_0") ∧ is_Some (r.1.1.1.1 !! "agent_1")
     ∧ ∃ d b, r.1.2 !! "__all__" = Some d ∧ data d = [b]
              ∧ (b = false → measure r.1.1.1.2 < measure state)) →
  ∀ m key obs state state_seq,
    measure state ≤ m →
    is_Some (obs !! "agent_0") → is_Some (obs !! "agent_1") →
    ∃ rest,
      rollout_loop env network jax (Datatypes.S m) network_params
        (key, obs, state) state_seq
      = Some (Ok (state_seq ++ rest))
      ∧ 1 ≤ length rest ≤ Datatypes.S m.
Proof.
  intros Hsplit Hstep.
  induction m as [|m IH]; intros key obs state state_seq Hm H0 H1;
    destruct (rollout_iteration_Ok measure network_params key obs state
                Hsplit Hstep H0 H1)
      as (key' & obs' & state' & b & Hiter & H0' & H1' & Hdec);
    rewrite rollout_loop_S, Hiter; destruct b;
    try (exists [state']; split; [done|cbn; lia]).
  - specialize (Hdec eq_refl). lia.
  - destruct (IH key' obs' state' (state_seq ++ [state']))
      as (rest & Hloop & Hlen); [specialize (Hdec eq_refl); lia|done..|].
    exists (state' :: rest). rewrite Hloop, <-app_assoc.
    split; [done|cbn; lia].
Qed.

(** [get_rollout] returns on every environment whose episodes end: when
    the environment always gives both agents an observation and a
    one-entry ["__all__"] flag, and some measure of the state falls with
    every step that does not end the episode, the loop stops after at
    most that measure of the reset state plus one passes. *)
Theorem get_rollout_terminates (measure : EnvState → nat)
    (train_state : TrainState) :
  (∀ key n, length (random_split_n jax key n) = n) →
  (∀ key, is_Some ((env_reset env key).1 !! "agent_0")
          ∧ is_Some ((env_reset env key).1 !! "agent_1")) →
  (∀ key state actions,
     let r := env_step env key state actions in
     is_Some (r.1.1.1.1 !! "agent_0") ∧ is_Some (r.1.1.1.1 !! "agent_1")
     ∧ ∃ d b, r.1.2 !! "__all__" = Some d ∧ data d = [b]
              ∧ (b = false → measure r.1.1.1.2 < measure state)) →
  ∃ fuel state rest,
    get_rollout PRNGKey env network jax fuel train_state
    = Some (Ok (state :: rest))
    ∧ 1 ≤ length rest ≤ measure state + 1.
Proof.
  intros Hsplit Hreset Hstep. unfold get_rollout.
  pose proof (Hsplit (PRNGKey 0) 3) as Hlen.
  destruct (random_split_n jax (PRNGKey 0) 3)
    as [|key [|key_r [|key_a [|]]]]; try done.
  specialize (Hreset key_r).
  destruct (env_reset env key_r) as [obs state]. cbn in Hreset.
  destruct Hreset as [H0 H1].
  destruct (rollout_loop_terminates measure (params jax train_state)
              Hsplit Hstep (measure state) key obs state [state]
              (le_n _) H0 H1) as (rest & Hloop & Hrest).
  exists (Datatypes.S (measure state)), state, rest.
  split; [exact Hloop|lia].
Qed.

End rollout_facts.

Lemma get_rollout_agent_names_witness :
  get_rollout ex_PRNGKey ex_renamed_env ex_network ex_engine 1 1%Q
  = Some (Raise (KeyError "agent_0")).
Proof.
  apply (get_rollout_agent_names ex_PRNGKey ex_renamed_env ex_network
           ex_engine 0 1%Q 0 1 2); reflexivity.
Defined.

Lemma get_rollout_terminates_witness :
  ∃ fuel state rest,
    get_rollout ex_PRNGKey ex_single_env ex_network ex_engine fuel 1%Q
    = Some (Ok (state :: rest))
    ∧ 1 ≤ length rest ≤ 2 - state + 1.
Proof.
  apply (get_rollout_terminates ex_PRNGKey ex_single_env ex_network ex_engine
           (λ t, 2 - t) 1%Q).
  - intros key n. cbn. by rewrite length_fmap, length_seq.
  - intros key. cbn. split; by eexists.
  - intros key state actions. cbn. split_and!; [by eexists..|].
    eexists _, _. split_and!; [reflexivity..|].
    intros Hb. apply bool_decide_eq_false in Hb. lia.
Defined.

Example get_rollout_ex_states :
  get_rollout ex_PRNGKey ex_single_env ex_network ex_engine 3 1%Q
  = Some (Ok [0; 1; 2; 3]).
Proof. reflexivity. Qed.

(** ** Counts and shapes of what the training function returns *)

Lemma scan_n_Ok_inv {C Y} (f : C → result (C * Y)) (I : C → Prop)
    (P : Y → Prop) (n : nat) :
  (∀ c c' y, I c → f c = Ok (c', y) → I c' ∧ P y) →
  ∀ init c ys, I init → scan_n f init n = Ok (c, ys) →
    I c ∧ Forall P ys ∧ length ys = n.
Proof.
  intros Hf init c ys Hinit Hrun. apply scan_n_Ok_steps in Hrun.
  revert init c ys Hinit Hrun.
  induction n as [|n IH]; intros init c ys Hinit; cbn.
  - by intros [= <- <-].
  - destruct (f init) as [[c1 y]|e] eqn:H1; [|done]. cbn.
    destruct (scan_steps f c1 n) as [[c2 ys']|e] eqn:H2; [|done]. cbn.
    intros [= <- <-].
    destruct (Hf _ _ _ Hinit H1) as [Hc1 Hy].
    destruct (IH _ _ _ Hc1 H2) as (Hc2 & Hys & Hlen).
    split_and!; [done|by constructor|by rewrite <-Hlen].
Qed.


Lemma mapM_Ok_inv {A B} (f : A → result B) (l : list A) (ys : list B) :
  mapM f l = Ok ys → Forall2 (λ x y, f x = Ok y) l ys.
Proof.
  revert ys. induction l as [|x l IH]; intros ys.
  - intros [= <-]. constructor.
  - rewrite mapM_cons. destruct (f x) as [y|e] eqn:Hx; [|done]. cbn.
    destruct (mapM f l) as [ys'|e]; [|done]. cbn.
    intros [= <-]. constructor; [done|]. by apply IH.
Qed.

Lemma reshape_Ok_shape {A} (x y : ndarray A) (newshape : list dim) :
  reshape x newshape = Ok y → ∃ fill, shape y = resolve fill newshape.
Proof.
  unfold reshape. destruct (count_infer newshape) as [|[|]]; [| |done].
  - case_decide; [|done]. intros [= <-]. by eexists.
  - case_decide; [done|]. case_decide; [|done]. intros [= <-]. by eexists.
Qed.

Lemma dict_mapM_Ok_inv {X Y} (f : ndarray X → result (ndarray Y))
    (m : gmap string (ndarray X)) (m' : gmap string (ndarray Y)) :
  dict_mapM f m = Ok m' →
  ∀ k v', m' !! k = Some v' → ∃ v, m !! k = Some v ∧ f v = Ok v'.
Proof.
  unfold dict_mapM.
  destruct (mapM _ (map_to_list m)) as [kvs|e] eqn:Hkvs; [|done]. cbn.
  intros [= <-] k v' Hk.
  apply elem_of_list_to_map_2, list_elem_of_lookup in Hk as [i Hi].
  apply mapM_Ok_inv in Hkvs.
  destruct (Forall2_lookup_r _ _ _ _ _ Hkvs Hi) as ([k0 v] & Hkv & Hf).
  cbn in Hf. destruct (f v) as [w|e] eqn:Hv; [|done].
  injection Hf as -> ->. exists v. split; [|done].
  apply elem_of_map_to_list, list_elem_of_lookup. by exists i.
Qed.

Lemma stack_dicts_Ok_shape {X} (ds : list (gmap string (ndarray X)))
    (d : gmap string (ndarray X)) (s : list nat) :
  stack_dicts ds = Ok d →
  Forall (map_Forall (λ _ v, shape v = s)) ds →
  map_Forall (λ _ v, shape v = length ds :: s) d.
Proof.
  unfold stack_dicts. destruct ds as [|d0 ds']; [done|].
  remember (d0 :: ds') as ds eqn:Hds. case_decide; [|done].
  destruct (mapM _ (elements (dom d0))) as [kvs|e] eqn:Hkvs; [|done].
  cbn [mbind result_bind mret result_ret].
  intros [= <-] Hall k v Hk.
  apply elem_of_list_to_map_2, list_elem_of_lookup in Hk as [i Hi].
  apply mapM_Ok_inv in Hkvs.
  destruct (Forall2_lookup_r _ _ _ _ _ Hkvs Hi) as (k0 & _ & Hf).
  cbv beta in Hf.
  destruct (mapM (λ d', dict_get d' k0) ds) as [vs|e] eqn:Hvs; [|done].
  cbn [mbind result_bind] in Hf.
  destruct (stack vs) as [w|e] eqn:Hw; [|done].
  injection Hf as -> ->.
  apply mapM_Ok_inv in Hvs.
  pose proof (Forall2_length _ _ _ Hvs) as Hlen.
  unfold stack in Hw. destruct vs as [|x vs']; [done|].
  case_decide; [|done]. injection Hw as <-. cbn [shape].
  rewrite Hlen. cbn [length]. f_equal. subst ds.
  apply Forall2_cons_1 in Hvs as [Hx _].
  apply Forall_cons_1 in Hall as [Hd0 _].
  unfold dict_get in Hx. destruct (d0 !! k) as [x'|] eqn:Hk0; [|done].
  injection Hx as ->. by apply (Hd0 k).
Qed.

Section run_facts.
Context {S F Ac Inf Key EnvState Params Pi TrainState Tx Grads : Type}.
Context `{!ArrayArith S (ndarray F) (ndarray bool)}.
Context `{!ArrayLib (ndarray F)}.
Context `{!FillValue F, !FillValue Ac, !FillValue Inf, !FillValue bool}.
Variable env :
  Environment (F:=F) (Ac:=Ac) (Inf:=Inf) (Key:=Key) (EnvState:=EnvState).
Variable network :
  Network (F:=F) (Ac:=Ac) (Key:=Key) (Params:=Params) (Pi:=Pi).
Variable jax :
  Engine (S:=S) (F:=F) (Key:=Key) (Params:=Params) (TrainState:=TrainState)
    (Tx:=Tx) (Grads:=Grads).
Variable config : Config S.

Abbreviation V := (ndarray F).
Abbreviation Traj :=
  (Transition (ndarray bool) (ndarray Ac) V V (gmap string (ndarray Inf))).

Lemma env_step_Ok_inv runner_state runner_state' (transition : Traj) :
  _env_step env network jax config runner_state
  = Ok (runner_state', transition) →
  runner_state'.1.1.1 = runner_state.1.1.1
  ∧ map_Forall (λ _ v, shape v = [NUM_ACTORS config]) (info transition).
Proof.
  destruct runner_state as [[[train_state env_state] last_obs] rng].
  unfold _env_step.
  destruct (random_split jax rng) as [rng1 _rng1].
  destruct (batchify last_obs _ _) as [obs_batch|e]; [|done].
  cbn [mbind result_bind].
  destruct (network_apply network _ _) as [pi value].
  destruct (unbatchify _ _ _ _) as [env_act|e]; [|done].
  cbn [mbind result_bind].
  destruct (random_split jax rng1) as [rng2 _rng2].
  destruct (vmap_env_step env _ _ _) as [[[[obsv env_state'] reward] done] inf].
  destruct (dict_mapM _ inf) as [inf'|e] eqn:Hinf; [|done].
  cbn [mbind result_bind].
  destruct (batchify done _ _) as [done_batch|e]; [|done].
  cbn [mbind result_bind].
  destruct (batchify reward _ _) as [reward_batch|e]; [|done].
  cbn [mbind result_bind mret result_ret].
  intros [= <- <-]. split; [done|]. cbn [info].
  intros k v Hk.
  destruct (dict_mapM_Ok_inv _ _ _ Hinf k v Hk) as (x & _ & Hx).
  apply reshape_Ok_shape in Hx as [fill ->]. done.
Qed.

Lemma collection_info runner_state runner_state' (transitions : list Traj)
    (n : nat) :
  scan_n (_env_step env network jax config) runner_state n
  = Ok (runner_state', transitions) →
  length transitions = n
  ∧ Forall (λ transition,
              map_Forall (λ _ v, shape v = [NUM_ACTORS config])
                (info transition)) transitions.
Proof.
  intros Hrun.
  destruct (scan_n_Ok_inv (_env_step env network jax config)
              (λ _, True)
              (λ transition : Traj,
                 map_Forall (λ _ v, shape v = [NUM_ACTORS config])
                   (info transition))
              n) with (3 := Hrun)
    as (_ & Hinfo & Hlen); [|done..].
  intros c c' y _ Hstep. by apply env_step_Ok_inv in Hstep as [_ Hy].
Qed.

(** Collecting leaves the network alone: any number of environment steps
    that succeed return that many transitions and the train state they
    were given. *)
Theorem collection_keeps_train_state runner_state runner_state'
    (transitions : list Traj) (n : nat) :
  scan_n (_env_step env network jax config) runner_state n
  = Ok (runner_state', transitions) →
  runner_state'.1.1.1 = runner_state.1.1.1 ∧ length transitions = n.
Proof.
  intros Hrun.
  destruct (scan_n_Ok_inv (_env_step env network jax config)
              (λ c, c.1.1.1 = runner_state.1.1.1)
              (λ _ : Traj, True) n) with (3 := Hrun)
    as (Hstate & _ & Hlen); [|done..].
  intros c c' y Hc Hstep. apply env_step_Ok_inv in Hstep as [Hts _].
  split; [congruence|done].
Qed.



Lemma stack_transitions_info (ts : list Traj) (t : Traj) :
  stack_transitions ts = Ok t → stack_dicts (info <$> ts) = Ok (info t).
Proof.
  unfold stack_transitions.
  destruct (stack (done <$> ts)); [|done]. cbn [mbind result_bind].
  destruct (stack (action <$> ts)); [|done]. cbn [mbind result_bind].
  destruct (stack (value <$> ts)); [|done]. cbn [mbind result_bind].
  destruct (stack (reward <$> ts)); [|done]. cbn [mbind result_bind].
  destruct (stack (log_prob <$> ts)); [|done]. cbn [mbind result_bind].
  destruct (stack (obs <$> ts)); [|done]. cbn [mbind result_bind].
  destruct (stack_dicts _); [|done]. cbn. by intros [= <-].
Qed.

Lemma update_step_traj_Ok_inv runner_state runner_state' (traj_batch : Traj) :
  _update_step_traj env network jax config runner_state
  = Ok (runner_state', traj_batch) →
  ∃ collected transitions,
    scan_n (_env_step env network jax config) runner_state
      (NUM_STEPS config) = Ok (collected, transitions)
    ∧ stack_transitions transitions = Ok traj_batch
    ∧ runner_state'.1.1.2 = collected.1.1.2
    ∧ runner_state'.1.2 = collected.1.2.
Proof.
  unfold _update_step_traj.
  destruct (scan_n _ runner_state _)
    as [[[[[train_state env_state] last_obs] rng] transitions]|e];
    [|done].
  cbn [mbind result_bind].
  destruct (stack_transitions transitions) as [traj|e] eqn:Hstack; [|done].
  cbn [mbind result_bind].
  destruct (batchify last_obs _ _) as [last_obs_batch|e]; [|done].
  cbn [mbind result_bind].
  destruct (network_apply network _ _) as [pi last_val].
  destruct (_calculate_gae _ _ _ _) as [advantages targets].
  destruct (stack advantages) as [advantages'|e]; [|done].
  cbn [mbind result_bind].
  destruct (stack targets) as [targets'|e]; [|done].
  cbn [mbind result_bind].
  destruct (scan_n _ _ (UPDATE_EPOCHS config))
    as [[[[[[train_state' ?] ?] ?] rng'] loss_info]|e]; [|done].
  cbn. intros [= <- <-]. eexists _, _. split; [done|]. by rewrite Hstack.
Qed.

(** A run that succeeds returns one metric dictionary per update,
    [NUM_UPDATES] in all, and every array in them has the shape
    [(NUM_STEPS, NUM_ACTORS)]: one entry per collection step and actor. *)
Theorem train_metrics_shape (rng : Key) runner_state
    (metrics : list (gmap string (ndarray Inf))) :
  train env network jax config rng = Ok (runner_state, metrics) →
  length metrics = NUM_UPDATES config
  ∧ ∀ metric k v, metric ∈ metrics → metric !! k = Some v →
      shape v = [NUM_STEPS config; NUM_ACTORS config].
Proof.
  unfold train. cbv zeta.
  destruct (scan_n _ _ (NUM_UPDATES config)) as [[final ms]|e] eqn:Hrun;
    [|done].
  cbn. intros [= <- <-].
  destruct (scan_n_Ok_inv (_update_step env network jax config)
              (λ _, True)
              (map_Forall (λ _ v, shape v
                                  = [NUM_STEPS config; NUM_ACTORS config]))
              (NUM_UPDATES config)) with (3 := Hrun)
    as (_ & Hall & Hlen); [|done|].
  - intros c c' metric _. unfold _update_step.
    destruct (_update_step_traj _ _ _ _ c) as [[c1 traj_batch]|e] eqn:Hstep;
      [|done].
    cbn. intros [= <- <-]. split; [done|].
    apply update_step_traj_Ok_inv in Hstep
      as (collected & transitions & Hcollect & Hstack & _).
    apply collection_info in Hcollect as [Hlen Hinfo].
    apply stack_transitions_info in Hstack.
    apply (stack_dicts_Ok_shape _ _ [NUM_ACTORS config]) in Hstack.
    + by rewrite length_fmap, Hlen in Hstack.
    + by apply Forall_fmap.
  - split; [done|]. intros metric k v Hin Hk.
    by apply (proj1 (Forall_forall _ _) Hall metric Hin k v).
Qed.

End run_facts.

(** ** The properties above at work on the examples *)

Lemma batchify_rows_witness :
  ∃ y,
    batchify obs_dict ["agent_0"; "agent_1"] 4 = Ok y
    ∧ shape y = [4; 3]
    ∧ block 3 3 (data y) = [10; 11; 12].
Proof.
  destruct (batchify_rows obs_dict ["agent_0"; "agent_1"]
              [NDArray [2; 3] [1; 2; 3; 4; 5; 6];
               NDArray [2; 3] [7; 8; 9; 10; 11; 12]] 2 [3])
    as (y & Hy & Hs & _ & Hrows).
  - repeat constructor.
  - discriminate.
  - lia.
  - repeat constructor.
  - exists y. split_and!; [exact Hy|exact Hs|].
    exact (Hrows 1 1 _ eq_refl (le_n 2)).
Defined.

Lemma unbatchify_batchify_any_rank_witness :
  (y ← batchify reward_dict ["agent_0"] (1 * 2);
   unbatchify y ["agent_0"] 2 1)
  = Ok ((λ v, NDArray [2; 1] (data v)) <$> reward_dict).
Proof.
  apply (unbatchify_batchify_any_rank reward_dict ["agent_0"] 2 []).
  - discriminate.
  - lia.
  - unfold reward_dict. rewrite dom_insert_L, dom_empty_L. set_solver.
  - intros a v Hv. unfold reward_dict in Hv.
    apply lookup_insert_Some in Hv as [[_ <-]|[_ Hv]]; [done|].
    by rewrite lookup_empty in Hv.
Defined.

Lemma batchify_shape_mismatch_witness :
  batchify ragged_dict ["agent_0"; "agent_1"] 4 = Raise ShapeMismatch.
Proof.
  apply (batchify_shape_mismatch ragged_dict ["agent_0"; "agent_1"] 4
           "agent_0" "agent_1"
           (NDArray [2; 3] [1; 2; 3; 4; 5; 6])
           (NDArray [2; 2] [7; 8; 9; 10])).
  - intros c Hc. rewrite !elem_of_cons, elem_of_nil in Hc.
    destruct Hc as [->|[->|[]]]; by eexists.
  - set_solver.
  - set_solver.
  - reflexivity.
  - reflexivity.
  - discriminate.
Defined.

Lemma batchify_num_actors_witness :
  batchify obs_dict ["agent_0"; "agent_1"] 3
  = Ok (NDArray [3; 4] [1; 2; 3; 4; 5; 6; 7; 8; 9; 10; 11; 12])
  ∧ ∃ e, batchify obs_dict ["agent_0"; "agent_1"] 5 = Raise e.
Proof.
  split.
  - apply (batchify_num_actors obs_dict ["agent_0"; "agent_1"]
             [NDArray [2; 3] [1; 2; 3; 4; 5; 6];
              NDArray [2; 3] [7; 8; 9; 10; 11; 12]] [2; 3] 3).
    + repeat constructor.
    + discriminate.
    + repeat constructor.
    + discriminate.
    + exists 4. reflexivity.
  - apply (batchify_num_actors obs_dict ["agent_0"; "agent_1"]
             [NDArray [2; 3] [1; 2; 3; 4; 5; 6];
              NDArray [2; 3] [7; 8; 9; 10; 11; 12]] [2; 3] 5).
    + repeat constructor.
    + discriminate.
    + repeat constructor.
    + right. intros [k Hk]. cbn in Hk. lia.
Defined.

Lemma unbatchify_rows_witness :
  ∃ d,
    unbatchify (NDArray [4; 3] [1; 2; 3; 4; 5; 6; 7; 8; 9; 10; 11; 12])
      ["agent_0"; "agent_1"] 2 2 = Ok d
    ∧ d !! "agent_1" = Some (NDArray [2; 3] [7; 8; 9; 10; 11; 12]).
Proof.
  destruct (unbatchify_rows
              (NDArray [4; 3] [1; 2; 3; 4; 5; 6; 7; 8; 9; 10; 11; 12])
              ["agent_0"; "agent_1"] 2 [3])
    as (d & Hd & _ & Hrows).
  - apply (bool_decide_unpack _). reflexivity.
  - discriminate.
  - lia.
  - reflexivity.
  - exists d. split; [exact Hd|]. exact (Hrows 1 "agent_1" eq_refl).
Defined.

Lemma env_act_blocks_witness :
  ∃ d,
    unbatchify (NDArray [4] [0; 1; 1; 0]) ["agent_0"; "agent_1"] 2 2 = Ok d
    ∧ (flatten <$> d) !! "agent_1" = Some (NDArray [2] [1; 0]).
Proof.
  destruct (env_act_blocks (NDArray [4] [0; 1; 1; 0])
              ["agent_0"; "agent_1"] 2)
    as (d & Hd & Hrows).
  - apply (bool_decide_unpack _). reflexivity.
  - discriminate.
  - lia.
  - reflexivity.
  - exists d. split; [exact Hd|]. exact (Hrows 1 "agent_1" eq_refl).
Defined.

Lemma gae_terminal_step_witness :
  ∃ advantage target,
    (_calculate_gae (99 # 100) (95 # 100) scenario 0%Q).1 !! 3
    = Some advantage
    ∧ (_calculate_gae (99 # 100) (95 # 100) scenario 0%Q).2 !! 3
      = Some target
    ∧ (advantage == 1 - (1 # 2))%Q
    ∧ (target == 1)%Q.
Proof.
  apply (gae_terminal_step (99 # 100) (95 # 100) scenario 0%Q 3
           (scenario_step true (1 # 2) 1)); reflexivity.
Defined.

Lemma gae_lambda_zero_witness :
  ∃ advantage,
    (_calculate_gae (99 # 100) 0%Q scenario 0%Q).1 !! 1 = Some advantage
    ∧ (advantage == 0 + (99 # 100) * (1 # 2) * (1 - 0) - (1 # 2))%Q.
Proof.
  apply (gae_lambda_zero (99 # 100) 0%Q scenario 0%Q 1
           (scenario_step false (1 # 2) 0)); reflexivity.
Defined.

Lemma gae_no_leak_witness :
  Forall2 Qeq
    (take 2 (_calculate_gae (99 # 100) (95 # 100)
               [scenario_step false (1 # 2) 0; scenario_step true (1 # 2) 1]
               0%Q).1)
    (take 2 (_calculate_gae (99 # 100) (95 # 100)
               [scenario_step false (1 # 2) 0; scenario_step true (1 # 2) 1;
                scenario_step false (1 # 2) 5]
               7%Q).1).
Proof.
  apply (gae_no_leak (99 # 100) (95 # 100)
           [scenario_step false (1 # 2) 0] []
           [scenario_step false (1 # 2) 5]
           (scenario_step true (1 # 2) 1) 0%Q 7%Q).
  reflexivity.
Defined.

Lemma actor_term_cases_witness :
  (loss_actor_terms (1 # 5) 2 1 == - (Qmin 2 (1 + (1 # 5)) * 1))%Q
  ∧ (loss_actor_terms (1 # 5) (1 # 2) (- (1))
     == - (Qmax (1 # 2) (1 - (1 # 5)) * - (1)))%Q.
Proof.
  split.
  - apply (actor_term_cases (1 # 5) 2 1); discriminate.
  - apply (actor_term_cases (1 # 5) (1 # 2) (- (1))); discriminate.
Defined.

Lemma value_loss_at_least_mse_witness :
  ∃ loss,
    value_loss_of (1 # 5)%Q [1; 3]%Q [1; 2]%Q [0; 4]%Q = [loss]
    ∧ ((1 # 2) * Qmean ((λ x, x * x) <$> zip_with Qminus [1; 3] [0; 4])
       <= loss)%Q
    ∧ (0 <= loss)%Q.
Proof.
  apply (value_loss_at_least_mse (1 # 5) [1; 3] [1; 2] [0; 4])%Q;
    reflexivity.
Defined.

Lemma value_loss_trust_region_witness :
  ∃ loss,
    value_loss_of 2%Q [1; 3]%Q [1; 2]%Q [0; 4]%Q = [loss]
    ∧ (loss
       == (1 # 2) * Qmean ((λ x, x * x) <$> zip_with Qminus [1; 3] [0; 4]))%Q.
Proof.
  apply (value_loss_trust_region 2 [1; 3] [1; 2] [0; 4])%Q.
  - reflexivity.
  - repeat constructor; discriminate.
Defined.

Lemma linear_schedule_drop_witness :
  (linear_schedule ex_config (1 + 2 * 2)
   == linear_schedule ex_config 1 - (1 # 4000) / inject_Z (Z.of_nat 2))%Q.
Proof.
  apply (linear_schedule_drop ex_config 1); cbn; lia.
Defined.

Lemma linear_schedule_range_witness :
  ((1 # 4000) / inject_Z (Z.of_nat 2) <= linear_schedule ex_config 5)%Q
  ∧ (linear_schedule ex_config 5 <= 1 # 4000)%Q.
Proof.
  destruct (linear_schedule_range ex_config 5) as (Hlo & Hhi & _).
  - cbn. lia.
  - cbn. lia.
  - discriminate.
  - cbn. lia.
  - split; [exact Hlo|exact Hhi].
Defined.

Lemma linear_schedule_antitone_witness :
  (linear_schedule ex_config 6 <= linear_schedule ex_config 1)%Q.
Proof.
  apply (linear_schedule_antitone ex_config 1 6);
    [cbn; lia|cbn; lia|cbn; lia|discriminate|lia].
Defined.

Lemma linear_schedule_not_clamped_witness :
  (linear_schedule ex_config 9 == 0)%Q
  ∧ (linear_schedule ex_config 12 < 0)%Q.
Proof.
  split.
  - apply (linear_schedule_not_clamped ex_config 9);
      [cbn; lia|cbn; lia|cbn; lia|reflexivity|cbn; lia].
  - apply (linear_schedule_not_clamped ex_config 12);
      [cbn; lia|cbn; lia|cbn; lia|reflexivity|cbn; lia].
Defined.

Lemma get_rollout_episode_witness :
  ∃ key key_r key_a rest,
    random_split_n ex_engine (ex_PRNGKey 0) 3 = [key; key_r; key_a]
    ∧ [0; 1; 2; 3] = (env_reset ex_single_env key_r).2 :: rest
    ∧ 0 < length rest
    ∧ episode_from ex_single_env ex_network ex_engine (params ex_engine 1%Q)
        (key, (env_reset ex_single_env key_r).1,
         (env_reset ex_single_env key_r).2) rest.
Proof.
  apply (get_rollout_episode ex_PRNGKey ex_single_env ex_network ex_engine
           1%Q [0; 1; 2; 3]).
  exists 3. reflexivity.
Defined.

Lemma collection_keeps_train_state_witness :
  ∃ runner_state' transitions,
    scan_n (_env_step ex_env ex_network ex_engine ex_config)
      (init_runner_state ex_env ex_network ex_engine ex_config 0) 2
    = Ok (runner_state', transitions)
    ∧ runner_state'.1.1.1 = 1%Q
    ∧ length transitions = 2.
Proof.
  destruct (scan_n (_env_step ex_env ex_network ex_engine ex_config)
              (init_runner_state ex_env ex_network ex_engine ex_config 0) 2)
    as [[runner_state' transitions]|e] eqn:Hrun; [|by vm_compute in Hrun].
  exists runner_state', transitions. split; [reflexivity|].
  exact (collection_keeps_train_state ex_env ex_network ex_engine ex_config
           _ _ _ _ Hrun).
Defined.


Lemma train_metrics_shape_witness :
  ∃ runner_state metrics,
    train ex_env ex_network ex_engine ex_config 0
    = Ok (runner_state, metrics)
    ∧ length metrics = 2
    ∧ ∀ metric k v, metric ∈ metrics → metric !! k = Some v →
        shape v = [2; 4].
Proof.
  destruct (train ex_env ex_network ex_engine ex_config 0)
    as [[runner_state metrics]|e] eqn:Hrun; [|by vm_compute in Hrun].
  exists runner_state, metrics. split; [reflexivity|].
  exact (train_metrics_shape ex_env ex_network ex_engine ex_config 0 _ _
           Hrun).
Defined.

(** ** Targets as discounted returns *)

Section gae_returns.
Context {Act O I : Type}.
Variables GAMMA GAE_LAMBDA : Q.
Implicit Types (traj_batch : list (Transition bool Act Q O I)).
Implicit Types (transition : Transition bool Act Q O I) (last_val : Q).

Lemma calculate_gae_lengths traj_batch last_val :
  length (_calculate_gae GAMMA GAE_LAMBDA traj_batch last_val).1
  = length traj_batch
  ∧ length (_calculate_gae GAMMA GAE_LAMBDA traj_batch last_val).2
    = length traj_batch.
Proof.
  unfold _calculate_gae.
  pose proof (length_scan_reverse (_get_advantages GAMMA GAE_LAMBDA)
                (zeros_like last_val, last_val) traj_batch) as Hlen.
  destruct (scan_reverse _ _ _) as [c advantages]. cbn in *.
  split; [done|]. rewrite length_zip_with, length_fmap. lia.
Qed.

(** With [GAE_LAMBDA = 1] the targets are the discounted returns: the
    target of a step is its reward plus, unless the step ends an episode,
    [GAMMA] times the target of the next step, and after the last step
    the bootstrap value stands in for the next target. The values the
    network gave at collection time cancel out. *)
Theorem gae_lambda_one traj_batch last_val t transition :
  (GAE_LAMBDA == 1)%Q → traj_batch !! t = Some transition →
  ∃ target,
    (_calculate_gae GAMMA GAE_LAMBDA traj_batch last_val).2 !! t
    = Some target
    ∧ (target
       == reward transition
          + GAMMA * (1 - (if done transition then 1 else 0))
            * default last_val
                ((_calculate_gae GAMMA GAE_LAMBDA traj_batch last_val).2
                 !! Datatypes.S t))%Q.
Proof.
  intros Hlambda Ht.
  destruct (calculate_gae_lookup GAMMA GAE_LAMBDA traj_batch last_val t
              transition Ht) as [_ Htgt].
  eexists. split; [exact Htgt|].
  destruct (calculate_gae_lengths traj_batch last_val) as [Hlen1 Hlen2].
  unfold advantage_of, delta_of.
  cbn [arr_add arr_sub arr_mul arr_smul fmul one_minus Q_arith].
  destruct (traj_batch !! Datatypes.S t) as [next|] eqn:Hnext.
  - destruct (calculate_gae_lookup GAMMA GAE_LAMBDA traj_batch last_val
                (Datatypes.S t) next Hnext) as [Hadv' Htgt'].
    rewrite Htgt', Hadv'. cbn [default fmap option_fmap option_map].
    set (advantage' := advantage_of _ _ next _ _). clearbody advantage'.
    cbv [id]. rewrite Hlambda. ring.
  - apply lookup_ge_None in Hnext.
    rewrite (proj2 (lookup_ge_None _ _)) by lia.
    rewrite (proj2 (lookup_ge_None _ _)) by lia.
    cbn [default fmap option_fmap option_map]. cbv [id].
    rewrite Hlambda. ring.
Qed.

End gae_returns.

Lemma gae_lambda_one_witness :
  ∃ target,
    (_calculate_gae (99 # 100) 1%Q scenario 0%Q).2 !! 2 = Some target
    ∧ (target
       == 0 + (99 # 100) * (1 - 0)
              * default 0 ((_calculate_gae (99 # 100) 1 scenario 0).2
                          !! 3%nat))%Q.
Proof.
  apply (gae_lambda_one (99 # 100) 1%Q scenario 0%Q 2
           (scenario_step false (1 # 2) 0)); reflexivity.
Defined.

(** ** What an update hands back *)

Section update_facts.
Context {S F Ac Inf Key EnvState Params Pi TrainState Tx Grads : Type}.
Context `{!ArrayArith S (ndarray F) (ndarray bool)}.
Context `{!ArrayLib (ndarray F)}.
Context `{!FillValue F, !FillValue Ac, !FillValue Inf, !FillValue bool}.
Variable env :
  Environment (F:=F) (Ac:=Ac) (Inf:=Inf) (Key:=Key) (EnvState:=EnvState).
Variable network :
  Network (F:=F) (Ac:=Ac) (Key:=Key) (Params:=Params) (Pi:=Pi).
Variable jax :
  Engine (S:=S) (F:=F) (Key:=Key) (Params:=Params) (TrainState:=TrainState)
    (Tx:=Tx) (Grads:=Grads).
Variable config : Config S.

(** The update epochs do not touch the environment, and the metric is
    what the collection saw: after an update that succeeds, the
    environment state and the last observation are those the
    [NUM_STEPS] collection steps left, and the metric is the stacked
    [info] of those steps. *)
Theorem update_step_environment_and_metric runner_state runner_state'
    (metric : gmap string (ndarray Inf)) :
  _update_step env network jax config runner_state
  = Ok (runner_state', metric) →
  ∃ collected transitions,
    scan_n (_env_step env network jax config) runner_state
      (NUM_STEPS config) = Ok (collected, transitions)
    ∧ runner_state'.1.1.2 = collected.1.1.2
    ∧ runner_state'.1.2 = collected.1.2
    ∧ stack_dicts (info <$> transitions) = Ok metric.
Proof.
  unfold _update_step.
  destruct (_update_step_traj _ _ _ _ runner_state)
    as [[after traj_batch]|e] eqn:Hstep; [|done].
  cbn. intros [= <- <-].
  apply update_step_traj_Ok_inv in Hstep
    as (collected & transitions & Hcollect & Hstack & Hstate & Hobs).
  exists collected, transitions. split_and!; [done..|].
  by apply stack_transitions_info.
Qed.

End update_facts.

Lemma update_step_environment_and_metric_witness :
  ∃ runner_state' metric collected transitions,
    _update_step ex_env ex_network ex_engine ex_config
      (init_runner_state ex_env ex_network ex_engine ex_config 0)
    = Ok (runner_state', metric)
    ∧ scan_n (_env_step ex_env ex_network ex_engine ex_config)
        (init_runner_state ex_env ex_network ex_engine ex_config 0) 2
      = Ok (collected, transitions)
    ∧ runner_state'.1.1.2 = collected.1.1.2
    ∧ runner_state'.1.2 = collected.1.2
    ∧ stack_dicts (info <$> transitions) = Ok metric.
Proof.
  destruct (_update_step ex_env ex_network ex_engine ex_config
              (init_runner_state ex_env ex_network ex_engine ex_config 0))
    as [[runner_state' metric]|e] eqn:Hrun; [|by vm_compute in Hrun].
  exists runner_state', metric.
  destruct (update_step_environment_and_metric ex_env ex_network ex_engine
              ex_config _ _ _ Hrun)
    as (collected & transitions & Hcollect & Hstate & Hobs & Hmetric).
  exists collected, transitions. split_and!; [reflexivity|done..].
Defined.
